(** * arxiv-update-bot: a shallow embedding of [arxiv_update_bot/main.py]

    The bot reads a configuration ([load_config]), fetches one arXiv RSS
    feed per category ([get_articles]), keeps the entries whose title,
    summary or author list fuzzily matches a buzzword, and forwards them
    through Telegram ([send_articles]).  The embedding keeps the shape of
    the Python code: loops are folds, [entry not in res] is list
    membership under equality of whole entries, exceptions are a sum, and
    the outside world (feeds, bot, standard output) is an explicit trace
    of events. *)

From Equations Require Import Equations.
From Stdlib Require Import String Ascii List ZArith Lia Bool Arith DecimalString DecimalNat.
Import ListNotations.
Open Scope string_scope.

Set Implicit Arguments.

(** ** Python strings *)

Module PyStr.

Definition LF : ascii := "010"%char.
Definition newline : string := String LF "".

(** [s[n:]] *)
Fixpoint drop (n : nat) (s : string) : string :=
  match n, s with
  | O, _ => s
  | S _, EmptyString => EmptyString
  | S n', String _ s' => drop n' s'
  end.

Lemma drop_length_le n s : String.length (drop n s) <= String.length s.
Proof.
  revert s; induction n as [|n IH]; intros [|c s]; simpl; try lia.
  specialize (IH s); lia.
Qed.

(** [str.replace(old, new)] for an empty [old]: [new] goes before every
    character and at the end. *)
Fixpoint interleave (new s : string) : string :=
  match s with
  | EmptyString => new
  | String c s' => new ++ String c (interleave new s')
  end.

(** [str.replace(old, new)] for [old = String o os]: one scan from the
    left; at an occurrence of [old] emit [new] and resume after it,
    otherwise copy one character. *)
Equations? replace_scan (o : ascii) (os new s : string) : string
  by wf (String.length s) lt :=
  replace_scan o os new EmptyString := EmptyString;
  replace_scan o os new (String c s') :=
    if String.prefix (String o os) (String c s')
    then new ++ replace_scan o os new (drop (String.length os) s')
    else String c (replace_scan o os new s').
Proof.
  pose proof (drop_length_le (String.length os) s'); lia.
Qed.

Definition replace (old new s : string) : string :=
  match old with
  | EmptyString => interleave new s
  | String o os => replace_scan o os new s
  end.

(** [sub in s] *)
Fixpoint occurs (sub s : string) : bool :=
  String.prefix sub s ||
  match s with
  | EmptyString => false
  | String _ s' => occurs sub s'
  end.

(** [c in s] for a single character. *)
Fixpoint has_char (c : ascii) (s : string) : bool :=
  match s with
  | EmptyString => false
  | String d s' => Ascii.eqb c d || has_char c s'
  end.

(** [s.split(sep)] for a one-character separator: never an empty list. *)
Fixpoint split (sep : ascii) (s : string) : list string :=
  match s with
  | EmptyString => [EmptyString]
  | String c s' =>
      if Ascii.eqb c sep then EmptyString :: split sep s'
      else match split sep s' with
           | h :: t => String c h :: t
           | [] => [String c EmptyString]
           end
  end.

(** [str(n)] for a length. *)
Definition of_nat (n : nat) : string := NilEmpty.string_of_uint (Nat.to_uint n).

End PyStr.

(** ** Feed entries

    A feedparser entry is a dictionary; the bot reads its [id], [title],
    [summary] and [authors] (a list of dictionaries, read at ['name']),
    and compares whole entries with [==] in [entry not in res].  [other]
    stands for the remaining keys of the dictionary (link, tags, dates),
    so that equality of entries is equality of all their content.  An
    author dictionary may lack the key ['name']: [name] is then [None]. *)

Record Author : Type := { name : option string }.

Record Entry : Type := {
  id : string;
  title : string;
  summary : string;
  authors : list Author;
  other : list (string * string)
}.

Definition Author_eq_dec (a b : Author) : {a = b} + {a <> b}.
Proof. decide equality; decide equality; apply string_dec. Defined.

Definition Entry_eq_dec (a b : Entry) : {a = b} + {a <> b}.
Proof.
  decide equality; try apply string_dec.
  - apply list_eq_dec; decide equality; apply string_dec.
  - apply (list_eq_dec Author_eq_dec).
Defined.

(** Entries that carry the same identifier are the same entry. *)
Definition id_consistent (l : list Entry) : Prop :=
  forall a b, In a l -> In b l -> id a = id b -> a = b.

Definition id_consistentb (l : list Entry) : bool :=
  forallb (fun a =>
    forallb (fun b =>
      implb (String.eqb (id a) (id b))
            (if Entry_eq_dec a b then true else false)) l) l.

(** The second argument of [fuzz.partial_ratio]: a string (title, summary)
    or the [authors] list object itself, as line 97 passes it. *)
Inductive Target : Type :=
| Str (s : string)
| AuthorList (l : list Author).

(** The buzzwords dictionary built in [main]:
    [{"authors": ..., "article": ...}]. *)
Record Buzzwords : Type := {
  for_authors : list string;
  for_article : list string
}.

(** One element of [updates], as [load_config] builds it. *)
Record Update : Type := {
  category : list string;
  chat_id : string;
  buzzwords : list string;
  update_authors : list string
}.

(** [telebot.TeleBot(token, parse_mode="HTML")] *)
Record TeleBot : Type := { token : string; parse_mode : string }.

(** ** The outside world: exceptions, events and the program monad *)

(** The exceptions the program is followed through: those it raises
    itself, the failed lookups, and the errors of [configparser] when it
    reads a file ([ParsingError]) or interpolates a value
    ([InterpolationError], with the section and the option). *)
Inductive Exn : Type :=
| Exception (msg : string)
| KeyError (key : string)
| IndexError
| ParsingError (source : string)
| InterpolationError (section : string) (option_name : string).

(** What a [print] call was given. *)
Inductive Printed : Type :=
| PStr (s : string)
| PEntries (l : list Entry)
| PBot (b : TeleBot)
| PConfig (tok : string) (updates : list Update).

Inductive Event : Type :=
| Print (what : Printed)
| Parse (url : string)
| SendMessage (bot : TeleBot) (chat : string) (text : string).

Inductive Result (A : Type) : Type :=
| Return (a : A)
| Raise (e : Exn).
Arguments Raise {A} e.

(** The [SendMessage] calls of a trace, in order. *)
Definition sent (tr : list Event) : list (string * string) :=
  flat_map (fun ev => match ev with
                      | SendMessage _ chat text => [(chat, text)]
                      | _ => []
                      end) tr.

(** The feed URLs requested in a trace, in order. *)
Definition fetched_urls (tr : list Event) : list string :=
  flat_map (fun ev => match ev with Parse url => [url] | _ => [] end) tr.

(** ** configparser

    The state of a [ConfigParser] after [config.read(path)]: the
    [DEFAULT] section and the other sections in file order, each a
    dictionary of options.  The parser is strict, so a file holds each
    section name and each option of a section once.  Reading an option
    interpolates its value ([BasicInterpolation]): a value without [%]
    is returned as stored; what the library makes of a value that holds
    [%] (a rewritten value or an error) is a parameter of the model. *)

Definition Options : Type := list (string * string).

Record ConfigParser : Type := {
  cp_defaults : Options;
  cp_sections : list (string * Options)
}.

(** [BasicInterpolation.before_get] on a value that holds [%], given the
    parser, the section, the option and the stored value. *)
Definition Interpolation : Type :=
  ConfigParser -> string -> string -> string -> Result string.

Definition percent : ascii := "%"%char.

Module Config.

Definition lookup {V} (key : string) (d : list (string * V)) : option V :=
  match find (fun kv => String.eqb key (fst kv)) d with
  | Some kv => Some (snd kv)
  | None => None
  end.

Definition is_some {V} (o : option V) : bool :=
  match o with Some _ => true | None => false end.

(** [config.sections()]: the names, without [DEFAULT]. *)
Definition sections (config : ConfigParser) : list string :=
  map fst (cp_sections config).

(** [name in config] *)
Definition contains (config : ConfigParser) (section : string) : bool :=
  String.eqb section "DEFAULT" || is_some (lookup section (cp_sections config)).

(** The options of [config[section]]. *)
Definition proxy (config : ConfigParser) (section : string) : Options :=
  match lookup section (cp_sections config) with
  | Some opts => opts
  | None => []
  end.

(** [key in config[section]]: the section's own options or those of
    [DEFAULT]. *)
Definition has_option (config : ConfigParser) (section key : string) : bool :=
  is_some (lookup key (proxy config section))
  || is_some (lookup key (cp_defaults config)).

(** The stored value of an option: the section's own, else that of
    [DEFAULT]. *)
Definition raw (config : ConfigParser) (section key : string) : option string :=
  match lookup key (proxy config section) with
  | Some v => Some v
  | None => lookup key (cp_defaults config)
  end.

(** [config[section][key]] *)
Definition getitem (interpolate : Interpolation) (config : ConfigParser)
           (section key : string) : Result string :=
  match raw config section key with
  | Some v =>
      if PyStr.has_char percent v then interpolate config section key v
      else Return v
  | None => Raise (KeyError key)
  end.

End Config.

(** ** [load_config] (lines 18-67) *)

Definition rbind {A B} (r : Result A) (k : A -> Result B) : Result B :=
  match r with
  | Return a => k a
  | Raise e => Raise e
  end.

Definition no_bot_section : Exn :=
  Exception "A bot section must be in the configuration file to set the token".

Definition no_token : Exn :=
  Exception "The bot section must have the bot token.".

(** The message of line 57; [str] of a section proxy is [<Section: name>]. *)
Definition not_complete (section : string) : Exn :=
  Exception ("The section <Section: " ++ section
             ++ "> is not complete. Missing one of three : category, chat_id or buzzwords.").

Definition comma : ascii := ","%char.

(** The test of lines 51-55. *)
Definition complete (config : ConfigParser) (section : string) : bool :=
  Config.has_option config section "category"
  && Config.has_option config section "chat_id"
  && Config.has_option config section "buzzwords".

(** Lines 48-66: the loop over [config.sections()]. *)
Fixpoint load_updates (interpolate : Interpolation) (config : ConfigParser)
         (names : list string) (updates : list Update) : Result (list Update) :=
  match names with
  | [] => Return updates
  | section :: rest =>
      if String.eqb section "bot" then load_updates interpolate config rest updates
      else if negb (complete config section)
      then Raise (not_complete section)
      else
        rbind (Config.getitem interpolate config section "category") (fun cat =>
        rbind (Config.getitem interpolate config section "chat_id") (fun chat =>
        rbind (Config.getitem interpolate config section "buzzwords") (fun words =>
        rbind (Config.getitem interpolate config section "authors") (fun auths =>
        load_updates interpolate config rest
          (updates ++ [ {| category := PyStr.split comma cat;
                           chat_id := chat;
                           buzzwords := PyStr.split comma words;
                           update_authors := PyStr.split comma auths |} ])%list))))
  end.

(** [load_config], on the parser state that [config.read(path)] left. *)
Definition load_config_of (interpolate : Interpolation) (config : ConfigParser)
  : Result (string * list Update) :=
  if negb (Config.contains config "bot") then Raise no_bot_section
  else if negb (Config.has_option config "bot" "token") then Raise no_token
  else
    rbind (Config.getitem interpolate config "bot" "token") (fun tok =>
    rbind (load_updates interpolate config (Config.sections config) []) (fun updates =>
    Return (tok, updates))).

(** ** The run-date gate and the command line *)

Inductive Weekday : Type :=
| Monday | Tuesday | Wednesday | Thursday | Friday | Saturday | Sunday.

(** [date.strftime('%A')] *)
Definition strftime_A (d : Weekday) : string :=
  match d with
  | Monday => "Monday" | Tuesday => "Tuesday" | Wednesday => "Wednesday"
  | Thursday => "Thursday" | Friday => "Friday" | Saturday => "Saturday"
  | Sunday => "Sunday"
  end.

(** The parsed command line. *)
Record Args : Type := { config_path : option string; quiet : bool }.

Definition DEFAULT_CONFIGURATION_PATH : string := "/home/jo/Config/aub.config.ini".

Definition weekend_notice : string := "C'est le week-end!".

(** The test of line 11. *)
Definition skip_day (today : Weekday) : bool :=
  existsb (String.eqb (strftime_A today)) ["Saturday"; "Sunday"].

(** The stored value an option resolves to (the section first, then
    [DEFAULT]). *)
Definition value (config : ConfigParser) (section key : string) : string :=
  match Config.raw config section key with
  | Some v => v
  | None => ""
  end.

(** The option is there and its value holds no [%]. *)
Definition plain_option (config : ConfigParser) (section key : string) : bool :=
  Config.has_option config section key
  && negb (PyStr.has_char percent (value config section key)).

(** The section has the four options and their values hold no [%]. *)
Definition plainly_loadable (config : ConfigParser) (section : string) : bool :=
  plain_option config section "category"
  && plain_option config section "chat_id"
  && plain_option config section "buzzwords"
  && plain_option config section "authors".

(** No stored value of the configuration holds [%]. *)
Definition percent_free (config : ConfigParser) : bool :=
  forallb (fun kv => negb (PyStr.has_char percent (snd kv)))
          (cp_defaults config ++ flat_map snd (cp_sections config)).

(** The section has the four options that lines 51-64 read. *)
Definition loadable (config : ConfigParser) (section : string) : bool :=
  complete config section && Config.has_option config section "authors".

(** The update that lines 59-66 build from a section with all four options. *)
Definition update_of (config : ConfigParser) (section : string) : Update :=
  {| category := PyStr.split comma (value config section "category");
     chat_id := value config section "chat_id";
     buzzwords := PyStr.split comma (value config section "buzzwords");
     update_authors := PyStr.split comma (value config section "authors") |}.

Section Program.

(** The state of the network as the feed parser sees it, and
    [feedparser.parse(url)]: the entries of the feed and the state
    after the request. *)
Variable Net : Type.
Variable feedparser_parse : string -> Net -> list Entry * Net.

(** [fuzz.partial_ratio], a score between 0 and 100. *)
Variable partial_ratio : string -> Target -> Z.

(** A computation: from the network state to its result, the events it
    caused and the network state it leaves. *)
Definition M (A : Type) : Type := Net -> Result A * list Event * Net.

Definition ret {A} (a : A) : M A := fun net => (Return a, [], net).

Definition raise {A} (e : Exn) : M A := fun net => (Raise e, [], net).

Definition bind {A B} (c : M A) (k : A -> M B) : M B :=
  fun net =>
    match c net with
    | (Return a, tr, net') =>
        match k a net' with
        | (r, tr', net'') => (r, (tr ++ tr')%list, net'')
        end
    | (Raise e, tr, net') => (Raise e, tr, net')
    end.

Definition emit (ev : Event) : M unit := fun net => (Return tt, [ev], net).

Definition print (what : Printed) : M unit := emit (Print what).

Definition send_message (bot : TeleBot) (chat text : string) : M unit :=
  emit (SendMessage bot chat text).

Definition parse (url : string) : M (list Entry) :=
  fun net =>
    match feedparser_parse url net with
    | (entries, net') => (Return entries, [Parse url], net')
    end.

Notation "x <- c ;; k" := (bind c (fun x => k))
  (at level 61, c at next level, right associativity).
Notation "c ;; k" := (bind c (fun _ => k))
  (at level 61, right associativity).

(** [for x in l: body(x)] *)
Fixpoint for_each {A} (l : list A) (body : A -> M unit) : M unit :=
  match l with
  | [] => ret tt
  | x :: rest => body x ;; for_each rest body
  end.

(** *** [get_articles] (lines 72-100) *)

(** The comparison [fuzz.partial_ratio(query, target) > 90] of lines 92
    and 97. *)
Definition fuzzy_match (query : string) (target : Target) : bool :=
  (90 <? partial_ratio query target)%Z.

(** Line 92: the buzzword matches the title or the summary. *)
Definition article_hit (buzzword : string) (entry : Entry) : bool :=
  fuzzy_match buzzword (Str (title entry))
  || fuzzy_match buzzword (Str (summary entry)).

(** Line 97: the author name matches [entry.authors]. *)
Definition author_hit (author : string) (entry : Entry) : bool :=
  fuzzy_match author (AuthorList (authors entry)).

(** [if entry not in res: res.append(entry)] *)
Definition append_new (res : list Entry) (entry : Entry) : list Entry :=
  if in_dec Entry_eq_dec entry res then res else (res ++ [entry])%list.

(** The body of the loop over [news_feed.entries]: every buzzword is
    tried, then every author, each hit guarded by the membership test. *)
Definition scan_entry (words : Buzzwords) (res : list Entry) (entry : Entry)
  : list Entry :=
  let res :=
    fold_left (fun res buzzword =>
                 if article_hit buzzword entry then append_new res entry else res)
              (for_article words) res in
  fold_left (fun res author =>
               if author_hit author entry then append_new res entry else res)
            (for_authors words) res.

Definition rss_url (cat : string) : string :=
  "http://export.arxiv.org/rss/" ++ cat.

Definition get_articles (cat : string) (words : Buzzwords) : M (list Entry) :=
  news_feed <- parse (rss_url cat) ;;
  ret (fold_left (scan_entry words) news_feed []).

(** *** [send_articles] (lines 103-138) *)

(** Lines 114-118: one feed per category, merged into [articles]. *)
Fixpoint collect (categories : list string) (words : Buzzwords)
         (articles : list Entry) : M (list Entry) :=
  match categories with
  | [] => ret articles
  | cat :: rest =>
      results <- get_articles cat words ;;
      collect rest words (fold_left append_new results articles)
  end.

(** Line 133 *)
Definition processed_summary (s : string) : string :=
  PyStr.replace "</p>" "" (PyStr.replace "<p>" "" (PyStr.replace PyStr.newline " " s)).

Definition nothing_text : string :=
  "I scraped the arXiv RSS but found nothing of interest for you. Sorry.".

Definition found_text (n : nat) : string :=
  "You are going to be happy. I found " ++ PyStr.of_nat n
    ++ " article(s) of potential interest.".

(** The f-string of line 137, given the first author's name. *)
Definition article_text (article : Entry) (first_author : string) : string :=
  "<strong>Title</strong>: " ++ title article ++ PyStr.newline
    ++ "<strong>Authors</strong>: " ++ first_author ++ PyStr.newline
    ++ "<strong>Link</strong>: " ++ id article ++ PyStr.newline
    ++ "<strong>Abstract:</strong>" ++ PyStr.newline
    ++ processed_summary (summary article).

(** [article.authors[0]['name']]: IndexError on an empty list, KeyError
    on a first author without a name. *)
Definition first_author_name (article : Entry) : Result string :=
  match authors article with
  | [] => Raise IndexError
  | first :: _ =>
      match name first with
      | Some n => Return n
      | None => Raise (KeyError "name")
      end
  end.

(** Lines 133-138: the body of the loop over [articles]; the two lookups
    of line 137 come after the summary was printed and before the message
    is sent. *)
Definition send_one (bot : TeleBot) (chat : string) (article : Entry) : M unit :=
  print (PStr (processed_summary (summary article))) ;;
  match first_author_name article with
  | Raise e => raise e
  | Return n => send_message bot chat (article_text article n)
  end.

Definition send_articles (bot : TeleBot) (chat : string)
           (categories : list string) (words : Buzzwords) (quiet : bool) : M unit :=
  articles <- collect categories words [] ;;
  print (PEntries articles) ;;
  match articles with
  | [] => if quiet then ret tt else send_message bot chat nothing_text
  | _ :: _ =>
      send_message bot chat (found_text (length articles)) ;;
      for_each articles (send_one bot chat)
  end.

(** *** What a run fetches and keeps *)

(** The feeds the categories of one update give, in order. *)
Fixpoint feeds (categories : list string) (net : Net) : list (list Entry) :=
  match categories with
  | [] => []
  | cat :: rest =>
      match feedparser_parse (rss_url cat) net with
      | (entries, net') => entries :: feeds rest net'
      end
  end.

(** The network state after those requests. *)
Fixpoint net_after (categories : list string) (net : Net) : Net :=
  match categories with
  | [] => net
  | cat :: rest => net_after rest (snd (feedparser_parse (rss_url cat) net))
  end.

Definition fetched (categories : list string) (net : Net) : list Entry :=
  concat (feeds categories net).

(** Some buzzword or some author name matches the entry. *)
Definition hit (words : Buzzwords) (entry : Entry) : bool :=
  existsb (fun buzzword => article_hit buzzword entry) (for_article words)
  || existsb (fun author => author_hit author entry) (for_authors words).

(** The list [articles] that [send_articles] holds at line 119. *)
Definition RelevantSet (categories : list string) (words : Buzzwords) (net : Net)
  : list Entry :=
  match collect categories words [] net with
  | (Return articles, _, _) => articles
  | (Raise _, _, _) => []
  end.

(** The message of line 137 for an article with a first author. *)
Definition message_of (article : Entry) : string :=
  article_text article
    match first_author_name article with
    | Return n => n
    | Raise _ => ""
    end.

Definition has_author (article : Entry) : bool :=
  match authors article with
  | [] => false
  | _ :: _ => true
  end.

(** The first author is there and has a name. *)
Definition sendable (article : Entry) : bool :=
  match first_author_name article with
  | Return _ => true
  | Raise _ => false
  end.

(** The exception of the first article that cannot be sent, if any. *)
Fixpoint send_failure (articles : list Entry) : option Exn :=
  match articles with
  | [] => None
  | article :: rest =>
      match first_author_name article with
      | Raise e => Some e
      | Return _ => send_failure rest
      end
  end.

(** The events of the loop of lines 132-138 over [articles]: it stops
    at the first article that cannot be sent, whose summary was printed. *)
Fixpoint send_events (bot : TeleBot) (chat : string) (articles : list Entry)
  : list Event :=
  match articles with
  | [] => []
  | article :: rest =>
      Print (PStr (processed_summary (summary article)))
      :: match first_author_name article with
         | Raise _ => []
         | Return n =>
             SendMessage bot chat (article_text article n)
             :: send_events bot chat rest
         end
  end.

Definition outcome_of {A} (run : Result A * list Event * Net) : Result A :=
  fst (fst run).

Definition trace_of {A} (run : Result A * list Event * Net) : list Event :=
  snd (fst run).

(** *** The reference algorithm of the specification (section 4.2)

    Written from the specification's words: articles are the same
    when their identifiers are; a keyword hit adds the article and
    ends the keyword loop; authors are tried only for an article not
    added; an article already present is skipped. *)

Record FilterSet : Type := {
  fs_categories : list string;
  fs_keywords : list string;
  fs_authors : list string;
  fs_destination : string;
  fs_quiet : bool
}.

Definition spec_present (article : Entry) (relevant : list Entry) : bool :=
  existsb (fun other => String.eqb (id article) (id other)) relevant.

Definition spec_add (relevant : list Entry) (article : Entry) : list Entry :=
  if spec_present article relevant then relevant else (relevant ++ [article])%list.

(** Step 2a; [None] when no keyword added the article. *)
Fixpoint spec_keywords (keywords : list string) (relevant : list Entry)
         (article : Entry) : option (list Entry) :=
  match keywords with
  | [] => None
  | keyword :: rest =>
      if fuzzy_match keyword (Str (title article))
         || fuzzy_match keyword (Str (summary article))
      then Some (spec_add relevant article)
      else spec_keywords rest relevant article
  end.

(** Step 2b *)
Definition spec_authors (names : list string) (relevant : list Entry)
           (article : Entry) : list Entry :=
  fold_left (fun relevant author =>
               if fuzzy_match author (AuthorList (authors article))
               then spec_add relevant article else relevant)
            names relevant.

(** Step 2 for one fetched article. *)
Definition spec_article (f : FilterSet) (relevant : list Entry) (article : Entry)
  : list Entry :=
  if spec_present article relevant then relevant
  else match spec_keywords (fs_keywords f) relevant article with
       | Some relevant' => relevant'
       | None => spec_authors (fs_authors f) relevant article
       end.

(** Steps 1, 3 and 4: the categories in order, one accumulating set. *)
Fixpoint spec_evaluate_from (f : FilterSet) (categories : list string)
         (relevant : list Entry) : M (list Entry) :=
  match categories with
  | [] => ret relevant
  | cat :: rest =>
      fetched_articles <- parse (rss_url cat) ;;
      spec_evaluate_from f rest (fold_left (spec_article f) fetched_articles relevant)
  end.

Definition spec_evaluate (f : FilterSet) : M (list Entry) :=
  spec_evaluate_from f (fs_categories f) [].

(** The buzzwords dictionary [main] builds for a filter set. *)
Definition words_of (f : FilterSet) : Buzzwords :=
  {| for_authors := fs_authors f; for_article := fs_keywords f |}.

(** *** [load_config] and [main] (lines 141-173) *)

(** The file system as the parser reads it: [config.read(path)] leaves
    a parser state (an empty one when the file does not exist) or raises
    because the file does not parse; and the interpolation of values. *)
Variable config_read : string -> Result ConfigParser.
Variable interpolate : Interpolation.

Definition load_config (path : string) : Result (string * list Update) :=
  match config_read path with
  | Return config => load_config_of interpolate config
  | Raise e => Raise e
  end.

(** [args.config_path or DEFAULT_CONFIGURATION_PATH] *)
Definition path_of (args : Args) : string :=
  match config_path args with
  | Some p => if String.eqb p "" then DEFAULT_CONFIGURATION_PATH else p
  | None => DEFAULT_CONFIGURATION_PATH
  end.

(** Line 159 *)
Definition path_notice (args : Args) : Event :=
  Print (PStr ("Config path:" ++ path_of args ++ PyStr.newline)).

Definition main (args : Args) : M unit :=
  emit (path_notice args) ;;
  match load_config (path_of args) with
  | Raise e => raise e
  | Return (tok, updates) =>
      print (PConfig tok updates) ;;
      let bot := {| token := tok; parse_mode := "HTML" |} in
      for_each updates (fun update =>
        print (PBot bot) ;;
        let words := {| for_authors := update_authors update;
                        for_article := buzzwords update |} in
        send_articles bot (chat_id update) (category update) words (quiet args))
  end.

(** The whole script: the date gate of lines 10-13, then [main]; the
    result is the exit status of the process (an uncaught exception
    ends it with status 1). *)
Definition program (today : Weekday) (args : Args) (net : Net)
  : Z * list Event * Net :=
  if skip_day today
  then (0%Z, [Print (PStr weekend_notice)], net)
  else
    match main args net with
    | (Return _, tr, net') => (0%Z, tr, net')
    | (Raise _, tr, net') => (1%Z, tr, net')
    end.

End Program.

(** ** Summaries as tagged text

    A summary seen as paragraph tags and stretches of text, to state what
    the cleaning of line 133 returns on summaries of that shape. *)

Inductive Piece : Type :=
| Text (t : string)
| OpenP
| CloseP.

Definition piece_string (p : Piece) : string :=
  match p with
  | Text t => t
  | OpenP => "<p>"
  | CloseP => "</p>"
  end.

Fixpoint render (ps : list Piece) : string :=
  match ps with
  | [] => ""
  | p :: rest => piece_string p ++ render rest
  end.

(** The text of a piece holds no ["<"]. *)
Definition plain (p : Piece) : bool :=
  match p with
  | Text t => negb (PyStr.has_char "<"%char t)
  | _ => true
  end.

(** Every line feed turned into a space. *)
Fixpoint spaces (s : string) : string :=
  match s with
  | EmptyString => EmptyString
  | String c s' => String (if Ascii.eqb c PyStr.LF then " "%char else c) (spaces s')
  end.

Definition is_open (p : Piece) : bool :=
  match p with OpenP => true | _ => false end.

Definition is_close (p : Piece) : bool :=
  match p with CloseP => true | _ => false end.

(** The piece with its line feeds turned into spaces. *)
Definition spaced (p : Piece) : Piece :=
  match p with Text t => Text (spaces t) | _ => p end.

(** The text of the pieces, tags left out, line feeds as spaces. *)
Fixpoint stripped (ps : list Piece) : string :=
  match ps with
  | [] => ""
  | Text t :: rest => spaces t ++ stripped rest
  | _ :: rest => stripped rest
  end.

(** Some non-empty end of [t] is a beginning of [pat], short of the whole
    of it: [t] ends with the start of an occurrence. *)
Fixpoint dangling (pat t : string) : bool :=
  match t with
  | EmptyString => false
  | String _ t' =>
      (String.prefix t pat && Nat.ltb (String.length t) (String.length pat))
      || dangling pat t'
  end.

(** [t] holds no occurrence of [pat] and does not end with the start of
    one. *)
Definition clear_of (pat t : string) : bool :=
  negb (PyStr.occurs pat t) && negb (dangling pat t).

(** The text of a piece holds no tag and does not end with the start of
    one (["<"], ["<p"], ["</"] or ["</p"]). *)
Definition tidy (p : Piece) : bool :=
  match p with
  | Text t => clear_of "<p>" t && clear_of "</p>" t
  | _ => true
  end.

(** A pattern that holds neither a newline nor a space: the replacement
    of newlines by spaces neither makes nor breaks an occurrence of it. *)
Definition solid (pat : string) : Prop :=
  PyStr.has_char PyStr.LF pat = false /\ PyStr.has_char " "%char pat = false.

(** ** A small world to run the program in

    Three feeds, a scoring function and a few configuration files, used
    to evaluate the program on concrete inputs. *)

Module Sample.

Definition walks : Entry :=
  {| id := "http://arxiv.org/abs/2101.00001";
     title := "Quantum walks on graphs";
     summary := "<p>Line one" ++ PyStr.newline ++ "Line two</p>";
     authors := [ {| name := Some "Ada Lovelace" |}; {| name := Some "Alan Turing" |} ];
     other := [("tags", "quant-ph")] |}.

(** The same article as listed in another category: same identifier,
    another dictionary. *)
Definition walks_cross : Entry :=
  {| id := "http://arxiv.org/abs/2101.00001";
     title := "Quantum walks on graphs";
     summary := "<p>Line one" ++ PyStr.newline ++ "Line two</p>";
     authors := [ {| name := Some "Ada Lovelace" |}; {| name := Some "Alan Turing" |} ];
     other := [("tags", "cs.DS")] |}.

Definition learning : Entry :=
  {| id := "http://arxiv.org/abs/2101.00002";
     title := "Deep learning";
     summary := "<p>A survey.</p>";
     authors := [ {| name := Some "Grace Hopper" |} ];
     other := [] |}.

(** An entry whose author list is empty. *)
Definition anonymous : Entry :=
  {| id := "http://arxiv.org/abs/2101.00003";
     title := "Quantum notes";
     summary := "<p>Notes.</p>";
     authors := [];
     other := [] |}.

(** The network state is the number of requests made so far. *)
Definition Net : Type := nat.

Definition feed (url : string) : list Entry :=
  if String.eqb url (rss_url "quant-ph") then [walks; learning]
  else if String.eqb url (rss_url "cs.DS") then [walks_cross; learning]
  else if String.eqb url (rss_url "math.CO") then [anonymous]
  else [].

Definition feedparser_parse (url : string) (net : Net) : list Entry * Net :=
  (feed url, S net).

(** A scoring function: 100 for a query found in the text, 91 and 90
    for a query found once its first or its first two characters are
    dropped, 0 otherwise; an author list scores 100 when it holds the
    query as a name. *)
Definition partial_ratio (query : string) (target : Target) : Z :=
  match target with
  | Str s =>
      if PyStr.occurs query s then 100%Z
      else if PyStr.occurs (PyStr.drop 1 query) s then 91%Z
      else if PyStr.occurs (PyStr.drop 2 query) s then 90%Z
      else 0%Z
  | AuthorList l =>
      if existsb (fun a => match name a with
                           | Some n => String.eqb query n
                           | None => false
                           end) l
      then 100%Z else 0%Z
  end.

Definition quantum : Buzzwords :=
  {| for_authors := ["Ada Lovelace"]; for_article := ["Quantum"; "walks"] |}.

Definition topology : Buzzwords :=
  {| for_authors := [""]; for_article := ["Topology"] |}.

Definition quantum_filter : FilterSet :=
  {| fs_categories := ["quant-ph"; "cs.DS"];
     fs_keywords := ["Quantum"; "walks"];
     fs_authors := ["Ada Lovelace"];
     fs_destination := "42";
     fs_quiet := false |}.

Definition bot : TeleBot := {| token := "123:abc"; parse_mode := "HTML" |}.

(** A configuration with every option. *)
Definition good : ConfigParser :=
  {| cp_defaults := [];
     cp_sections :=
       [ ("bot", [("token", "123:abc")]);
         ("quantum", [("category", "quant-ph,cs.DS"); ("chat_id", "42");
                      ("buzzwords", "Quantum,walks"); ("authors", "Ada Lovelace")]) ] |}.

(** The same without [authors]. *)
Definition no_authors : ConfigParser :=
  {| cp_defaults := [];
     cp_sections :=
       [ ("bot", [("token", "123:abc")]);
         ("quantum", [("category", "quant-ph,cs.DS"); ("chat_id", "42");
                      ("buzzwords", "Quantum,walks")]) ] |}.

(** A section without [buzzwords]. *)
Definition no_buzzwords : ConfigParser :=
  {| cp_defaults := [];
     cp_sections :=
       [ ("bot", [("token", "123:abc")]);
         ("quantum", [("category", "quant-ph"); ("chat_id", "42");
                      ("authors", "Ada Lovelace")]) ] |}.

(** The parser state for a file that does not exist. *)
Definition empty : ConfigParser := {| cp_defaults := []; cp_sections := [] |}.

Definition config_read (path : string) : Result ConfigParser :=
  if String.eqb path "/etc/good.ini" then Return good
  else if String.eqb path "/etc/no_authors.ini" then Return no_authors
  else if String.eqb path "/etc/no_buzzwords.ini" then Return no_buzzwords
  else Return empty.

(** An interpolation that refuses every value it is given, as the
    library does for a [%] that nothing follows. *)
Definition interpolate : Interpolation :=
  fun _ section key _ => Raise (InterpolationError section key).

Definition args (path : string) : Args :=
  {| config_path := Some path; quiet := false |}.

End Sample.

(** ** [flatten] (lines 69-70) and further vocabulary

    The comprehension [[item for sublist in l for item in sublist]] as
    the two nested loops it stands for. *)

Definition flatten {A} (l : list (list A)) : list A :=
  fold_left (fun res sublist =>
               fold_left (fun res item => (res ++ [item])%list) sublist res)
            l [].

(** The number of occurrences of a character. *)
Fixpoint count_char (c : ascii) (s : string) : nat :=
  match s with
  | EmptyString => 0
  | String d s' => (if Ascii.eqb d c then 1 else 0) + count_char c s'
  end.

(** The event is no call of the bot, or a call of [bot] for [chat]. *)
Definition addressed (bot : TeleBot) (chat : string) (ev : Event) : Prop :=
  match ev with
  | SendMessage b c _ => b = bot /\ c = chat
  | _ => True
  end.

(** The sections of a configuration that give an update, in file order. *)
Definition update_sections (config : ConfigParser) : list string :=
  filter (fun s => negb (String.eqb s "bot")) (Config.sections config).

(** The body of the loop of lines 168-173, for the bot and the flag that
    [main] holds. *)
Definition notify_update {Net : Type}
           (feedparser_parse : string -> Net -> list Entry * Net)
           (partial_ratio : string -> Target -> Z)
           (bot : TeleBot) (quiet_flag : bool) (update : Update) : M Net unit :=
  bind (@print Net (PBot bot))
       (fun _ =>
          send_articles feedparser_parse partial_ratio bot (chat_id update)
            (category update)
            {| for_authors := update_authors update;
               for_article := buzzwords update |}
            quiet_flag).

(** In the run of the loop of lines 168-173 from the network state
    [net], no update keeps an article: each update is looked at in the
    state that the requests of the updates before it have left. *)
Fixpoint nothing_kept {Net : Type}
         (feedparser_parse : string -> Net -> list Entry * Net)
         (partial_ratio : string -> Target -> Z)
         (updates : list Update) (net : Net) : Prop :=
  match updates with
  | [] => True
  | update :: rest =>
      RelevantSet feedparser_parse partial_ratio (category update)
        {| for_authors := update_authors update;
           for_article := buzzwords update |} net = []
      /\ nothing_kept feedparser_parse partial_ratio rest
           (net_after feedparser_parse (category update) net)
  end.

(** More sample data: configurations whose options come from [DEFAULT],
    with incomplete sections, with a [%] in a value, a file that does not
    parse, and an entry whose author has no name. *)

Module MoreSamples.

Definition inherited : ConfigParser :=
  {| cp_defaults :=
       [("token", "123:abc"); ("category", "quant-ph"); ("chat_id", "42");
        ("buzzwords", "Quantum"); ("authors", "Ada Lovelace")];
     cp_sections :=
       [ ("bot", []);
         ("first", []);
         ("second", [("chat_id", "43"); ("buzzwords", "walks,graphs")]) ] |}.

Definition two_incomplete : ConfigParser :=
  {| cp_defaults := [];
     cp_sections :=
       [ ("quantum", [("category", "quant-ph"); ("chat_id", "42");
                      ("buzzwords", "Quantum"); ("authors", "Ada Lovelace")]);
         ("bot", [("token", "123:abc")]);
         ("second", [("category", "cs.DS"); ("chat_id", "43")]);
         ("third", [("category", "cs.DS")]) ] |}.

Definition two_updates : ConfigParser :=
  {| cp_defaults := [("authors", "")];
     cp_sections :=
       [ ("first", [("category", "quant-ph,math.CO"); ("chat_id", "42");
                    ("buzzwords", "Quantum")]);
         ("bot", [("token", "123:abc")]);
         ("second", [("category", "cs.DS"); ("chat_id", "43");
                     ("buzzwords", "walks")]) ] |}.

(** Two updates whose buzzwords and author names match nothing of the
    sample feeds. *)
Definition silent_updates : ConfigParser :=
  {| cp_defaults := [];
     cp_sections :=
       [ ("first", [("category", "quant-ph,math.CO"); ("chat_id", "42");
                    ("buzzwords", "Topology"); ("authors", "Nobody")]);
         ("bot", [("token", "123:abc")]);
         ("second", [("category", "cs.DS"); ("chat_id", "43");
                     ("buzzwords", "Knots,Braids"); ("authors", "Nobody")]) ] |}.

(** The section has no [authors] of its own and [DEFAULT] gives one. *)
Definition authors_by_default : ConfigParser :=
  {| cp_defaults := [("authors", "Ada Lovelace")];
     cp_sections :=
       [ ("bot", [("token", "123:abc")]);
         ("quantum", [("category", "quant-ph"); ("chat_id", "42");
                      ("buzzwords", "Quantum")]) ] |}.

(** Every option is there and the token holds a [%]. *)
Definition percent_token : ConfigParser :=
  {| cp_defaults := [];
     cp_sections :=
       [ ("bot", [("token", "123:a%c")]);
         ("quantum", [("category", "quant-ph"); ("chat_id", "42");
                      ("buzzwords", "Quantum"); ("authors", "Ada Lovelace")]) ] |}.

Definition config_read (path : string) : Result ConfigParser :=
  if String.eqb path "/etc/inherited.ini" then Return inherited
  else if String.eqb path "/etc/two_incomplete.ini" then Return two_incomplete
  else if String.eqb path "/etc/two_updates.ini" then Return two_updates
  else if String.eqb path "/etc/silent_updates.ini" then Return silent_updates
  else if String.eqb path "/etc/authors_by_default.ini" then Return authors_by_default
  else if String.eqb path "/etc/percent_token.ini" then Return percent_token
  else if String.eqb path "/etc/broken.ini" then Raise (ParsingError "/etc/broken.ini")
  else Sample.config_read path.

(** An entry whose only author dictionary has no name. *)
Definition nameless : Entry :=
  {| id := "http://arxiv.org/abs/2101.00004";
     title := "Quantum remarks";
     summary := "<p>Remarks.</p>";
     authors := [ {| name := None |} ];
     other := [] |}.

Definition feedparser_parse (url : string) (net : Sample.Net)
  : list Entry * Sample.Net :=
  if String.eqb url (rss_url "stat.ML") then ([nameless], S net)
  else Sample.feedparser_parse url net.

End MoreSamples.

(** * Properties *)

Unset Implicit Arguments.

(** ** Python strings *)

Example replace_ex1 : PyStr.replace "<p>" "" "a<p>b<p>" = "ab".
Proof. reflexivity. Qed.

Example replace_ex2 : PyStr.replace "" "-" "abc" = "-a-b-c-".
Proof. reflexivity. Qed.

Example split_ex1 : PyStr.split ","%char "a,b,,c" = ["a"; "b"; ""; "c"].
Proof. reflexivity. Qed.

Example split_ex2 : PyStr.split ","%char "" = [""].
Proof. reflexivity. Qed.

Example of_nat_ex : PyStr.of_nat 12 = "12" /\ PyStr.of_nat 0 = "0".
Proof. split; reflexivity. Qed.

Module PyStrFacts.
Import PyStr.

Lemma prefix_empty s : String.prefix "" s = true.
Proof. destruct s; reflexivity. Qed.

Lemma prefix_cons o os c s :
  String.prefix (String o os) (String c s)
  = if ascii_dec o c then String.prefix os s else false.
Proof. reflexivity. Qed.

Lemma prefix_head_neq o os c s :
  o <> c -> String.prefix (String o os) (String c s) = false.
Proof. intros H; simpl; destruct (ascii_dec o c); [contradiction | reflexivity]. Qed.

Lemma has_char_app c s t : has_char c (s ++ t) = has_char c s || has_char c t.
Proof.
  induction s as [|d s IH]; simpl; [reflexivity|].
  rewrite IH, orb_assoc; reflexivity.
Qed.

Lemma has_char_false_cons c d s :
  has_char c (String d s) = false -> c <> d /\ has_char c s = false.
Proof.
  simpl; intros H; apply orb_false_iff in H as [H1 H2].
  split; [apply Ascii.eqb_neq; exact H1 | exact H2].
Qed.

(** A stretch of text without the first character of [old] is copied. *)
Lemma replace_scan_skip o os new t r :
  has_char o t = false ->
  replace_scan o os new (t ++ r) = t ++ replace_scan o os new r.
Proof.
  induction t as [|c t IH]; intros H; [reflexivity|].
  apply has_char_false_cons in H as [Hne Ht].
  change (String c t ++ r) with (String c (t ++ r)).
  rewrite replace_scan_equation_2, (prefix_head_neq _ _ _ _ Hne), (IH Ht).
  reflexivity.
Qed.

Lemma has_char_drop x n s : has_char x s = false -> has_char x (drop n s) = false.
Proof.
  revert s; induction n as [|n IH]; intros [|d s] H; simpl in *; auto.
  apply orb_false_iff in H as [_ H]; auto.
Qed.

(** Replacing by the empty string only deletes characters. *)
Lemma replace_scan_delete_chars o os x s :
  has_char x s = false -> has_char x (replace_scan o os "" s) = false.
Proof.
  funelim (replace_scan o os "" s); intros Hx; [reflexivity|].
  apply orb_false_iff in Hx as [Hc Hs].
  destruct (String.prefix (String o os) (String c s')).
  - simpl.
    match goal with
    | IH : forall x, has_char x (drop _ _) = false -> _ |- _ => apply IH
    end.
    apply has_char_drop; exact Hs.
  - simpl. rewrite Hc; simpl.
    match goal with
    | IH : forall x, has_char x s' = false -> _ |- _ => apply IH
    end.
    exact Hs.
Qed.

(** Replacing one character by another leaves no occurrence of it. *)
Lemma replace_scan_char_gone o n s :
  o <> n -> has_char o (replace_scan o "" (String n "") s) = false.
Proof.
  intros Hne; induction s as [|c s IH]; [reflexivity|].
  rewrite replace_scan_equation_2, prefix_cons.
  destruct (ascii_dec o c) as [->|Hc].
  - rewrite prefix_empty; cbn [drop String.length append has_char].
    rewrite IH, orb_false_r.
    apply Ascii.eqb_neq; exact Hne.
  - cbn [has_char]. rewrite IH, orb_false_r. apply Ascii.eqb_neq; exact Hc.
Qed.

(** A string without the first character of [sub] has no occurrence of it. *)
Lemma occurs_no_head o os s :
  has_char o s = false -> occurs (String o os) s = false.
Proof.
  induction s as [|c s IH]; intros H; [reflexivity|].
  apply has_char_false_cons in H as [Hne Hs].
  cbn [occurs]. rewrite (prefix_head_neq _ _ _ _ Hne), (IH Hs); reflexivity.
Qed.

End PyStrFacts.

(** ** The cleaning of summaries (line 133) *)

Module Cleaning.
Import PyStr PyStrFacts.

Lemma replace_newline s : replace newline " " s = spaces s.
Proof.
  unfold replace, newline.
  induction s as [|c s IH]; [reflexivity|].
  rewrite replace_scan_equation_2, prefix_cons.
  destruct (ascii_dec LF c) as [<-|Hc].
  - rewrite prefix_empty; cbn [drop String.length]. rewrite IH; reflexivity.
  - rewrite IH. apply not_eq_sym, Ascii.eqb_neq in Hc.
    cbn [spaces]; rewrite Hc; reflexivity.
Qed.

Lemma spaces_app s t : spaces (s ++ t) = spaces s ++ spaces t.
Proof. induction s as [|c s IH]; simpl; [|rewrite IH]; reflexivity. Qed.

Lemma spaces_render ps : spaces (render ps) = render (map spaced ps).
Proof.
  induction ps as [|p ps IH]; [reflexivity|].
  simpl; rewrite spaces_app, IH; destruct p; reflexivity.
Qed.

Lemma spaces_no_newline s : has_char LF (spaces s) = false.
Proof.
  induction s as [|c s IH]; [reflexivity|]; cbn [spaces has_char].
  rewrite IH, orb_false_r.
  destruct (Ascii.eqb c LF) eqn:E; [reflexivity|].
  rewrite Ascii.eqb_sym; exact E.
Qed.

Lemma spaces_keeps_lt s : has_char "<"%char (spaces s) = has_char "<"%char s.
Proof.
  induction s as [|c s IH]; [reflexivity|]; cbn [spaces has_char]; rewrite IH.
  destruct (Ascii.eqb c LF) eqn:E; [|reflexivity].
  apply Ascii.eqb_eq in E; subst c; reflexivity.
Qed.

Lemma plain_spaced ps : forallb plain ps = true -> forallb plain (map spaced ps) = true.
Proof.
  induction ps as [|p ps IH]; [reflexivity|]; simpl.
  intros H; apply andb_true_iff in H as [Hp Hps].
  rewrite (IH Hps), andb_true_r.
  destruct p; simpl in *; [rewrite spaces_keeps_lt|..]; assumption.
Qed.

(** The second pass deletes the opening tags and nothing else. *)
Lemma replace_open ps :
  forallb plain ps = true ->
  replace "<p>" "" (render ps) = render (filter (fun p => negb (is_open p)) ps).
Proof.
  unfold replace.
  induction ps as [|p ps IH]; intros H; [reflexivity|].
  simpl in H; apply andb_true_iff in H as [Hp Hps]; specialize (IH Hps).
  destruct p as [t| |]; simpl.
  - rewrite replace_scan_skip, IH; [reflexivity|].
    apply negb_true_iff; exact Hp.
  - rewrite replace_scan_equation_2; simpl.
    rewrite prefix_empty; simpl. exact IH.
  - rewrite replace_scan_equation_2; simpl.
    change (String "/" (String "p" (String ">" (render ps))))
      with ("/p>" ++ render ps).
    rewrite replace_scan_skip, IH; reflexivity.
Qed.

(** The third pass deletes the closing tags and nothing else. *)
Lemma replace_close ps :
  forallb plain ps = true ->
  replace "</p>" "" (render ps) = render (filter (fun p => negb (is_close p)) ps).
Proof.
  unfold replace.
  induction ps as [|p ps IH]; intros H; [reflexivity|].
  simpl in H; apply andb_true_iff in H as [Hp Hps]; specialize (IH Hps).
  destruct p as [t| |]; simpl.
  - rewrite replace_scan_skip, IH; [reflexivity|].
    apply negb_true_iff; exact Hp.
  - rewrite replace_scan_equation_2; simpl.
    change (String "p" (String ">" (render ps))) with ("p>" ++ render ps).
    rewrite replace_scan_skip, IH; reflexivity.
  - rewrite replace_scan_equation_2; simpl.
    rewrite prefix_empty; simpl. exact IH.
Qed.

Lemma plain_filter f ps : forallb plain ps = true -> forallb plain (filter f ps) = true.
Proof.
  induction ps as [|p ps IH]; [reflexivity|]; simpl.
  intros H; apply andb_true_iff in H as [Hp Hps].
  destruct (f p); simpl; [rewrite Hp|]; auto.
Qed.

Lemma render_text_only ps :
  render (filter (fun p => negb (is_close p))
            (filter (fun p => negb (is_open p)) (map spaced ps))) = stripped ps.
Proof.
  induction ps as [|p ps IH]; [reflexivity|].
  destruct p; simpl; rewrite IH; reflexivity.
Qed.

Lemma stripped_chars x ps :
  (forall t, In (Text t) ps -> has_char x (spaces t) = false) ->
  has_char x (stripped ps) = false.
Proof.
  induction ps as [|p ps IH]; intros H; [reflexivity|].
  assert (Hps : has_char x (stripped ps) = false)
    by (apply IH; intros u Hu; apply H; right; exact Hu).
  destruct p as [t| |]; simpl; try exact Hps.
  rewrite has_char_app, (H t (or_introl eq_refl)); exact Hps.
Qed.

Lemma stripped_plain ps :
  forallb plain ps = true -> has_char "<"%char (stripped ps) = false.
Proof.
  intros H; apply stripped_chars; intros t Ht.
  rewrite forallb_forall in H; specialize (H _ Ht); simpl in H.
  rewrite spaces_keeps_lt; apply negb_true_iff; exact H.
Qed.

Lemma processed_summary_render ps :
  forallb plain ps = true -> processed_summary (render ps) = stripped ps.
Proof.
  intros H; unfold processed_summary.
  rewrite replace_newline, spaces_render.
  rewrite replace_open by (apply plain_spaced; exact H).
  rewrite replace_close by (apply plain_filter, plain_spaced; exact H).
  apply render_text_only.
Qed.

Lemma processed_summary_no_newline s :
  has_char LF (processed_summary s) = false.
Proof.
  unfold processed_summary; rewrite replace_newline.
  unfold replace; do 2 apply replace_scan_delete_chars.
  apply spaces_no_newline.
Qed.

End Cleaning.

(** ** The cleaning on text that holds ["<"] *)

Module Tidy.
Import PyStr PyStrFacts.

Lemma prefix_app_cases pat : forall u r,
  String.prefix pat (u ++ r) = true ->
  String.prefix pat u = true
  \/ (String.prefix u pat = true /\ String.length u < String.length pat).
Proof.
  induction pat as [|o os IH]; intros u r H; [left; apply prefix_empty|].
  destruct u as [|c u]; [right; split; [reflexivity | simpl; lia]|].
  change (String c u ++ r) with (String c (u ++ r)) in H.
  rewrite prefix_cons in H; rewrite !prefix_cons.
  destruct (ascii_dec o c) as [->|Hne]; [|discriminate].
  destruct (ascii_dec c c) as [_|Hc]; [|contradiction Hc; reflexivity].
  destruct (IH u r H) as [Hp|[Hp Hl]]; [left; exact Hp|].
  right; split; [exact Hp | simpl; lia].
Qed.

Lemma prefix_app_l pat : forall u r,
  String.prefix (u ++ r) pat = true -> String.prefix u pat = true.
Proof.
  induction pat as [|o os IH]; intros [|c u] r H; try reflexivity.
  - destruct r; discriminate H.
  - change (String c u ++ r) with (String c (u ++ r)) in H.
    rewrite prefix_cons in *.
    destruct (ascii_dec c o); [apply (IH u r H) | discriminate].
Qed.

Lemma clear_of_cons pat c t :
  clear_of pat (String c t) = true ->
  String.prefix pat (String c t) = false
  /\ (String.prefix (String c t) pat = true ->
      String.length (String c t) < String.length pat -> False)
  /\ clear_of pat t = true.
Proof.
  unfold clear_of; cbn [occurs dangling]; intros H.
  apply andb_true_iff in H as [Ho Hd].
  apply negb_true_iff, orb_false_iff in Ho as [Ho1 Ho2].
  apply negb_true_iff, orb_false_iff in Hd as [Hd1 Hd2].
  split; [exact Ho1|]; split.
  - intros Hp Hl; rewrite Hp in Hd1; apply Nat.ltb_lt in Hl.
    rewrite Hl in Hd1; discriminate.
  - rewrite Ho2, Hd2; reflexivity.
Qed.

Lemma no_prefix_across pat c t r :
  clear_of pat (String c t) = true -> String.prefix pat (String c t ++ r) = false.
Proof.
  intros H; apply clear_of_cons in H as (Hp & Hd & _).
  destruct (String.prefix pat (String c t ++ r)) eqn:E; [|reflexivity].
  destruct (prefix_app_cases pat _ r E) as [Hq|[Hq Hl]]; [congruence|].
  destruct (Hd Hq Hl).
Qed.

(** The scan copies a stretch of text that holds no occurrence and does
    not end with the start of one. *)
Lemma replace_scan_clear o os new t r :
  clear_of (String o os) t = true ->
  replace_scan o os new (t ++ r) = t ++ replace_scan o os new r.
Proof.
  induction t as [|c t IH]; intros H; [reflexivity|].
  pose proof (no_prefix_across _ c t r H) as Hp.
  apply clear_of_cons in H as (_ & _ & Ht).
  change (String c t ++ r) with (String c (t ++ r)) in *.
  rewrite replace_scan_equation_2, Hp, (IH Ht); reflexivity.
Qed.

Lemma clear_of_app pat a b :
  clear_of pat a = true -> clear_of pat b = true -> clear_of pat (a ++ b) = true.
Proof.
  intros Ha Hb; induction a as [|c a IH]; [exact Hb|].
  pose proof (no_prefix_across pat c a b Ha) as Hp.
  apply clear_of_cons in Ha as (_ & Hd & Ha'); specialize (IH Ha').
  change (String c a ++ b) with (String c (a ++ b)) in *.
  unfold clear_of in *; cbn [occurs dangling].
  apply andb_true_iff in IH as [Io Id].
  apply negb_true_iff in Io; apply negb_true_iff in Id.
  rewrite Hp, Io, Id; cbn [orb negb andb]; rewrite orb_false_r.
  apply negb_true_iff, andb_false_iff.
  destruct (String.prefix (String c (a ++ b)) pat) eqn:E; [right | left; reflexivity].
  apply Nat.ltb_ge.
  destruct (Nat.lt_ge_cases (String.length (String c (a ++ b))) (String.length pat))
    as [Hl|Hl]; [|exact Hl].
  exfalso; apply Hd.
  - apply (prefix_app_l pat (String c a) b); exact E.
  - assert (L : String.length (String c a) <= String.length (String c (a ++ b))).
    { clear; simpl; apply le_n_S; induction a as [|d a IH]; simpl; lia. }
    lia.
Qed.

Lemma solid_cons o os : solid (String o os) -> o <> LF /\ o <> " "%char /\ solid os.
Proof.
  intros [H1 H2].
  apply has_char_false_cons in H1 as [N1 H1].
  apply has_char_false_cons in H2 as [N2 H2].
  repeat split; auto.
Qed.

Lemma prefix_spaces_r pat : forall t,
  solid pat -> String.prefix pat (spaces t) = String.prefix pat t.
Proof.
  induction pat as [|o os IH]; intros t S; [rewrite !prefix_empty; reflexivity|].
  apply solid_cons in S as (N1 & N2 & S).
  destruct t as [|c t]; [reflexivity|]; cbn [spaces]; rewrite !prefix_cons.
  destruct (Ascii.eqb c LF) eqn:E.
  - apply Ascii.eqb_eq in E; subst c.
    destruct (ascii_dec o " "), (ascii_dec o LF); try contradiction; reflexivity.
  - destruct (ascii_dec o c); [apply IH; exact S | reflexivity].
Qed.

Lemma prefix_spaces_l pat : forall u,
  solid pat -> String.prefix (spaces u) pat = String.prefix u pat.
Proof.
  induction pat as [|o os IH]; intros u S; [destruct u; reflexivity|].
  apply solid_cons in S as (N1 & N2 & S).
  destruct u as [|c u]; [reflexivity|]; cbn [spaces]; rewrite !prefix_cons.
  destruct (Ascii.eqb c LF) eqn:E.
  - apply Ascii.eqb_eq in E; subst c.
    destruct (ascii_dec " " o), (ascii_dec LF o); try reflexivity;
      subst o; contradiction.
  - destruct (ascii_dec c o); [apply IH; exact S | reflexivity].
Qed.

Lemma clear_of_spaces pat t :
  solid pat -> clear_of pat (spaces t) = clear_of pat t.
Proof.
  intros S; unfold clear_of.
  assert (O : occurs pat (spaces t) = occurs pat t).
  { induction t as [|c t IH]; [reflexivity|].
    change (occurs pat (spaces (String c t)))
      with (String.prefix pat (spaces (String c t)) || occurs pat (spaces t)).
    rewrite (prefix_spaces_r pat _ S), IH; reflexivity. }
  assert (D : dangling pat (spaces t) = dangling pat t).
  { clear O; induction t as [|c t IH]; [reflexivity|].
    change (dangling pat (spaces (String c t)))
      with ((String.prefix (spaces (String c t)) pat
             && Nat.ltb (String.length (spaces (String c t))) (String.length pat))
            || dangling pat (spaces t)).
    rewrite (prefix_spaces_l pat _ S), IH.
    assert (L : forall u, String.length (spaces u) = String.length u)
      by (induction u as [|d u IHu]; simpl; [|rewrite IHu]; reflexivity).
    rewrite L; reflexivity. }
  rewrite O, D; reflexivity.
Qed.

Lemma solid_open : solid "<p>".
Proof. split; reflexivity. Qed.

Lemma solid_close : solid "</p>".
Proof. split; reflexivity. Qed.

Lemma tidy_spaced ps : forallb tidy ps = true -> forallb tidy (map spaced ps) = true.
Proof.
  induction ps as [|p ps IH]; [reflexivity|]; cbn [forallb map].
  intros H; apply andb_true_iff in H as [Hp Hps].
  rewrite (IH Hps), andb_true_r.
  destruct p as [t| |]; [|reflexivity..].
  cbn [spaced tidy] in *.
  rewrite (clear_of_spaces _ t solid_open), (clear_of_spaces _ t solid_close).
  exact Hp.
Qed.

Lemma tidy_filter f ps : forallb tidy ps = true -> forallb tidy (filter f ps) = true.
Proof.
  induction ps as [|p ps IH]; [reflexivity|]; cbn [forallb filter].
  intros H; apply andb_true_iff in H as [Hp Hps].
  destruct (f p); cbn [forallb]; [rewrite Hp|]; auto.
Qed.

(** The second pass deletes the opening tags and nothing else. *)
Lemma replace_open_tidy ps :
  forallb tidy ps = true ->
  replace "<p>" "" (render ps) = render (filter (fun p => negb (is_open p)) ps).
Proof.
  unfold replace.
  induction ps as [|p ps IH]; intros H; [reflexivity|].
  cbn [forallb] in H; apply andb_true_iff in H as [Hp Hps]; specialize (IH Hps).
  destruct p as [t| |]; cbn [render piece_string filter is_open negb].
  - cbn [tidy] in Hp; apply andb_true_iff in Hp as [Hp _].
    rewrite (replace_scan_clear _ _ _ t _ Hp), IH; reflexivity.
  - simpl; rewrite replace_scan_equation_2; simpl.
    rewrite prefix_empty; simpl. exact IH.
  - rewrite (replace_scan_clear "<" "p>" "" "</p>" _ eq_refl), IH; reflexivity.
Qed.

(** The third pass deletes the closing tags and nothing else. *)
Lemma replace_close_tidy ps :
  forallb tidy ps = true ->
  replace "</p>" "" (render ps) = render (filter (fun p => negb (is_close p)) ps).
Proof.
  unfold replace.
  induction ps as [|p ps IH]; intros H; [reflexivity|].
  cbn [forallb] in H; apply andb_true_iff in H as [Hp Hps]; specialize (IH Hps).
  destruct p as [t| |]; cbn [render piece_string filter is_close negb].
  - cbn [tidy] in Hp; apply andb_true_iff in Hp as [_ Hp].
    rewrite (replace_scan_clear _ _ _ t _ Hp), IH; reflexivity.
  - rewrite (replace_scan_clear "<" "/p>" "" "<p>" _ eq_refl), IH; reflexivity.
  - simpl; rewrite replace_scan_equation_2; simpl.
    rewrite prefix_empty; simpl. exact IH.
Qed.

Lemma processed_summary_tidy ps :
  forallb tidy ps = true -> processed_summary (render ps) = stripped ps.
Proof.
  intros H; unfold processed_summary.
  rewrite Cleaning.replace_newline, Cleaning.spaces_render.
  rewrite replace_open_tidy by (apply tidy_spaced; exact H).
  rewrite replace_close_tidy by (apply tidy_filter, tidy_spaced; exact H).
  apply Cleaning.render_text_only.
Qed.

Lemma stripped_clear ps :
  forallb tidy ps = true ->
  clear_of "<p>" (stripped ps) = true /\ clear_of "</p>" (stripped ps) = true.
Proof.
  induction ps as [|p ps IH]; [split; reflexivity|]; cbn [forallb].
  intros H; apply andb_true_iff in H as [Hp Hps]; destruct (IH Hps) as [I1 I2].
  destruct p as [t| |]; cbn [stripped]; [|split; assumption..].
  cbn [tidy] in Hp; apply andb_true_iff in Hp as [H1 H2].
  split; apply clear_of_app; try assumption.
  - rewrite (clear_of_spaces _ t solid_open); exact H1.
  - rewrite (clear_of_spaces _ t solid_close); exact H2.
Qed.

Lemma clear_of_occurs pat t : clear_of pat t = true -> occurs pat t = false.
Proof.
  unfold clear_of; intros H; apply andb_true_iff in H as [H _].
  apply negb_true_iff; exact H.
Qed.

End Tidy.

(** ** The membership-guarded append *)

Section AppendNew.

Lemma append_new_in res e x : In x (append_new res e) <-> In x res \/ x = e.
Proof.
  unfold append_new; destruct (in_dec Entry_eq_dec e res) as [Hin|Hout].
  - split; [auto | intros [H| ->]; assumption].
  - rewrite in_app_iff; simpl; intuition.
Qed.

Lemma append_new_present res e : In e res -> append_new res e = res.
Proof.
  intros H; unfold append_new.
  destruct (in_dec Entry_eq_dec e res); [reflexivity | contradiction].
Qed.

Lemma append_new_absent res e : ~ In e res -> append_new res e = (res ++ [e])%list.
Proof.
  intros H; unfold append_new.
  destruct (in_dec Entry_eq_dec e res); [contradiction | reflexivity].
Qed.

Lemma append_new_idem res e : append_new (append_new res e) e = append_new res e.
Proof. apply append_new_present, append_new_in; right; reflexivity. Qed.

Lemma append_new_nodup res e : NoDup res -> NoDup (append_new res e).
Proof.
  intros H; unfold append_new.
  destruct (in_dec Entry_eq_dec e res) as [Hin|Hout]; [exact H|].
  apply NoDup_app; [exact H | repeat constructor; intros [] |].
  intros x Hx [<-|[]]; contradiction.
Qed.

Lemma merge_in l : forall acc x,
  In x (fold_left append_new l acc) <-> In x acc \/ In x l.
Proof.
  induction l as [|e l IH]; intros acc x; simpl; [tauto|].
  rewrite IH, append_new_in; intuition.
Qed.

Lemma merge_nodup l : forall acc, NoDup acc -> NoDup (fold_left append_new l acc).
Proof.
  induction l as [|e l IH]; intros acc H; simpl; [exact H|].
  apply IH, append_new_nodup, H.
Qed.

(** Merging after one more guarded append is one more guarded append
    after merging. *)
Lemma merge_append_new p x acc :
  fold_left append_new (append_new p x) acc
  = append_new (fold_left append_new p acc) x.
Proof.
  destruct (in_dec Entry_eq_dec x p) as [Hin|Hout].
  - rewrite (append_new_present _ _ Hin).
    symmetry; apply append_new_present, merge_in; right; exact Hin.
  - rewrite (append_new_absent _ _ Hout), fold_left_app; reflexivity.
Qed.

(** Merging a list that was itself built by guarded appends is merging
    the elements it was built from. *)
Lemma merge_merged l : forall p acc,
  fold_left append_new (fold_left append_new l p) acc
  = fold_left append_new l (fold_left append_new p acc).
Proof.
  induction l as [|x l IH]; intros p acc; simpl; [reflexivity|].
  rewrite IH, merge_append_new; reflexivity.
Qed.

(** A loop that adds the same entry at every hit, with an idempotent
    [add], adds it once when there is a hit. *)
Lemma scan_hits {W} (add : list Entry -> Entry -> list Entry)
      (f : W -> bool) (e : Entry) ws :
  (forall res, add (add res e) e = add res e) ->
  forall res,
    fold_left (fun res w => if f w then add res e else res) ws res
    = if existsb f ws then add res e else res.
Proof.
  intros Hidem; induction ws as [|w ws IH]; intros res; simpl; [reflexivity|].
  rewrite IH; destruct (f w); simpl; [|reflexivity].
  rewrite Hidem; destruct (existsb f ws); reflexivity.
Qed.

End AppendNew.

(** ** What [get_articles] and the merge of [send_articles] compute *)

Section Runs.

Variable Net : Type.
Variable feedparser_parse : string -> Net -> list Entry * Net.
Variable partial_ratio : string -> Target -> Z.

Lemma scan_entry_hit words res e :
  scan_entry partial_ratio words res e
  = if hit partial_ratio words e then append_new res e else res.
Proof.
  unfold scan_entry, hit.
  rewrite !scan_hits by (intros; apply append_new_idem).
  destruct (existsb _ (for_article words)); simpl; [|reflexivity].
  destruct (existsb _ (for_authors words)); [apply append_new_idem | reflexivity].
Qed.

Lemma scan_feed words feed : forall acc,
  fold_left (scan_entry partial_ratio words) feed acc
  = fold_left append_new (filter (hit partial_ratio words) feed) acc.
Proof.
  induction feed as [|e feed IH]; intros acc; simpl; [reflexivity|].
  rewrite IH, scan_entry_hit.
  destruct (hit partial_ratio words e); reflexivity.
Qed.

Lemma get_articles_run cat words net :
  get_articles feedparser_parse partial_ratio cat words net
  = (Return (fold_left append_new
               (filter (hit partial_ratio words)
                       (fst (feedparser_parse (rss_url cat) net))) []),
     [Parse (rss_url cat)],
     snd (feedparser_parse (rss_url cat) net)).
Proof.
  unfold get_articles, bind, parse, ret.
  destruct (feedparser_parse (rss_url cat) net) as [entries net']; simpl.
  rewrite scan_feed; reflexivity.
Qed.

Lemma fetched_cons cat rest net :
  fetched feedparser_parse (cat :: rest) net
  = (fst (feedparser_parse (rss_url cat) net)
     ++ fetched feedparser_parse rest (snd (feedparser_parse (rss_url cat) net)))%list.
Proof.
  unfold fetched; simpl.
  destruct (feedparser_parse (rss_url cat) net); reflexivity.
Qed.

Lemma collect_run words categories : forall acc net,
  collect feedparser_parse partial_ratio categories words acc net
  = (Return (fold_left append_new
               (filter (hit partial_ratio words)
                       (fetched feedparser_parse categories net)) acc),
     map Parse (map rss_url categories),
     net_after feedparser_parse categories net).
Proof.
  induction categories as [|cat rest IH]; intros acc net; [reflexivity|].
  cbn [collect]; unfold bind at 1.
  rewrite get_articles_run, IH, fetched_cons, filter_app, fold_left_app.
  rewrite merge_merged; reflexivity.
Qed.

Lemma RelevantSet_eq categories words net :
  RelevantSet feedparser_parse partial_ratio categories words net
  = fold_left append_new
      (filter (hit partial_ratio words) (fetched feedparser_parse categories net)) [].
Proof. unfold RelevantSet; rewrite collect_run; reflexivity. Qed.

Lemma RelevantSet_in categories words net x :
  In x (RelevantSet feedparser_parse partial_ratio categories words net)
  <-> In x (fetched feedparser_parse categories net) /\ hit partial_ratio words x = true.
Proof.
  rewrite RelevantSet_eq, merge_in, filter_In; simpl; tauto.
Qed.

Lemma RelevantSet_nodup categories words net :
  NoDup (RelevantSet feedparser_parse partial_ratio categories words net).
Proof. rewrite RelevantSet_eq; apply merge_nodup; constructor. Qed.

End Runs.

(** ** The reference algorithm against the code *)

Section Reference.

Variable Net : Type.
Variable feedparser_parse : string -> Net -> list Entry * Net.
Variable partial_ratio : string -> Target -> Z.

Lemma spec_present_app a rel rel' :
  spec_present a (rel ++ rel') = spec_present a rel || spec_present a rel'.
Proof. apply existsb_app. Qed.

Lemma spec_add_present rel a : spec_present a (spec_add rel a) = true.
Proof.
  unfold spec_add; destruct (spec_present a rel) eqn:P; [exact P|].
  rewrite spec_present_app, P; simpl.
  rewrite String.eqb_refl; reflexivity.
Qed.

Lemma spec_add_idem rel a : spec_add (spec_add rel a) a = spec_add rel a.
Proof. unfold spec_add at 1; rewrite spec_add_present; reflexivity. Qed.

Lemma spec_keywords_hit keywords rel a :
  spec_keywords partial_ratio keywords rel a
  = if existsb (fun k => article_hit partial_ratio k a) keywords
    then Some (spec_add rel a) else None.
Proof.
  induction keywords as [|k ks IH]; simpl; [reflexivity|].
  unfold article_hit at 1.
  destruct (fuzzy_match partial_ratio k (Str (title a))
            || fuzzy_match partial_ratio k (Str (summary a))); simpl;
    [reflexivity | exact IH].
Qed.

Lemma spec_article_hit f rel a :
  spec_article partial_ratio f rel a
  = if hit partial_ratio (words_of f) a then spec_add rel a else rel.
Proof.
  unfold spec_article, hit, spec_authors; simpl.
  rewrite spec_keywords_hit.
  destruct (spec_present a rel) eqn:P.
  - unfold spec_add; rewrite P.
    match goal with |- _ = (if ?c then _ else _) => destruct c; reflexivity end.
  - destruct (existsb _ (fs_keywords f)); simpl; [reflexivity|].
    apply (scan_hits spec_add (fun n => author_hit partial_ratio n a)).
    intros; apply spec_add_idem.
Qed.

Lemma spec_feed f feed : forall acc,
  fold_left (spec_article partial_ratio f) feed acc
  = fold_left spec_add (filter (hit partial_ratio (words_of f)) feed) acc.
Proof.
  induction feed as [|e feed IH]; intros acc; simpl; [reflexivity|].
  rewrite IH, spec_article_hit.
  destruct (hit partial_ratio (words_of f) e); reflexivity.
Qed.

Lemma spec_evaluate_run f categories : forall acc net,
  spec_evaluate_from feedparser_parse partial_ratio f categories acc net
  = (Return (fold_left spec_add
               (filter (hit partial_ratio (words_of f))
                       (fetched feedparser_parse categories net)) acc),
     map Parse (map rss_url categories),
     net_after feedparser_parse categories net).
Proof.
  induction categories as [|cat rest IH]; intros acc net; [reflexivity|].
  cbn [spec_evaluate_from]; unfold bind at 1, parse at 1.
  rewrite (fetched_cons _ feedparser_parse), filter_app, fold_left_app.
  cbn [net_after map].
  destruct (feedparser_parse (rss_url cat) net) as [entries net']; cbn [fst snd].
  rewrite IH, spec_feed; reflexivity.
Qed.

(** Where identifiers tell entries apart, presence by identifier is
    membership. *)
Lemma spec_present_in U rel a :
  id_consistent U -> incl rel U -> In a U ->
  spec_present a rel = true <-> In a rel.
Proof.
  intros HU Hrel Ha; unfold spec_present; rewrite existsb_exists; split.
  - intros (b & Hb & E). apply String.eqb_eq in E.
    rewrite (HU a b Ha (Hrel b Hb) E); exact Hb.
  - intros H; exists a; split; [exact H | apply String.eqb_refl].
Qed.

Lemma spec_add_append_new U rel a :
  id_consistent U -> incl rel U -> In a U -> spec_add rel a = append_new rel a.
Proof.
  intros HU Hrel Ha; unfold spec_add, append_new.
  pose proof (spec_present_in U rel a HU Hrel Ha) as P.
  destruct (spec_present a rel), (in_dec Entry_eq_dec a rel) as [Hin|Hout];
    try reflexivity.
  - exfalso; apply Hout, P; reflexivity.
  - apply P in Hin; discriminate.
Qed.

Lemma spec_merge U l : forall acc,
  id_consistent U -> incl acc U -> incl l U ->
  fold_left spec_add l acc = fold_left append_new l acc.
Proof.
  induction l as [|e l IH]; intros acc HU Hacc Hl; simpl; [reflexivity|].
  assert (He : In e U) by (apply Hl; left; reflexivity).
  rewrite (spec_add_append_new U acc e HU Hacc He).
  apply IH; [exact HU | | intros x Hx; apply Hl; right; exact Hx].
  intros x Hx; apply append_new_in in Hx as [Hx| ->]; auto.
Qed.

End Reference.

(** ** What [send_articles] sends *)

Section Sending.

Variable Net : Type.
Variable feedparser_parse : string -> Net -> list Entry * Net.
Variable partial_ratio : string -> Target -> Z.

Lemma sent_app tr tr' : sent (tr ++ tr') = (sent tr ++ sent tr')%list.
Proof. apply flat_map_app. Qed.

Lemma sent_parse urls : sent (map Parse urls) = [].
Proof. induction urls as [|u urls IH]; [reflexivity | exact IH]. Qed.

Lemma fetched_urls_parse urls : fetched_urls (map Parse urls) = urls.
Proof. induction urls as [|u urls IH]; simpl; [|rewrite IH]; reflexivity. Qed.

Lemma send_one_run bot chat a (net : Net) :
  send_one bot chat a net
  = match first_author_name a with
    | Raise e => (Raise e, [Print (PStr (processed_summary (summary a)))], net)
    | Return n =>
        (Return tt,
         [Print (PStr (processed_summary (summary a)));
          SendMessage bot chat (article_text a n)], net)
    end.
Proof.
  unfold send_one, bind, print, send_message, emit, raise.
  destruct (first_author_name a); reflexivity.
Qed.

Lemma for_each_send_one bot chat articles (net : Net) :
  for_each articles (send_one bot chat) net
  = (match send_failure articles with
     | None => Return tt
     | Some e => Raise e
     end,
     send_events bot chat articles, net).
Proof.
  induction articles as [|a rest IH]; [reflexivity|].
  cbn [for_each send_failure send_events]; unfold bind at 1.
  rewrite send_one_run.
  destruct (first_author_name a) as [n|e]; [|reflexivity].
  rewrite IH; reflexivity.
Qed.

Lemma send_failure_none articles :
  forallb sendable articles = true -> send_failure articles = None.
Proof.
  induction articles as [|a rest IH]; [reflexivity|].
  cbn [forallb send_failure]; unfold sendable at 1.
  destruct (first_author_name a); [exact IH | discriminate].
Qed.


Lemma send_events_all bot chat articles :
  forallb sendable articles = true ->
  sent (send_events bot chat articles)
  = map (fun a => (chat, message_of a)) articles.
Proof.
  induction articles as [|a rest IH]; [reflexivity|].
  cbn [forallb]; unfold sendable at 1, message_of at 1; cbn [send_events map].
  destruct (first_author_name a) as [n|e]; [|discriminate].
  intros H; simpl; rewrite (IH H); reflexivity.
Qed.


Lemma send_articles_run bot chat categories words quiet net :
  send_articles feedparser_parse partial_ratio bot chat categories words quiet net
  = let articles := RelevantSet feedparser_parse partial_ratio categories words net in
    (match articles with
     | [] => Return tt
     | _ :: _ =>
         match send_failure articles with
         | None => Return tt
         | Some e => Raise e
         end
     end,
     (map Parse (map rss_url categories)
      ++ Print (PEntries articles)
      :: match articles with
         | [] => if quiet then [] else [SendMessage bot chat nothing_text]
         | _ :: _ =>
             SendMessage bot chat (found_text (length articles))
             :: send_events bot chat articles
         end)%list,
     net_after feedparser_parse categories net).
Proof.
  rewrite RelevantSet_eq.
  unfold send_articles, bind at 1; rewrite collect_run.
  destruct (fold_left append_new _ []) as [|a articles].
  - destruct quiet; reflexivity.
  - unfold bind, print, send_message, emit.
    rewrite for_each_send_one; reflexivity.
Qed.




Lemma sendable_named a :
  sendable a = true
  <-> exists first others n, authors a = first :: others /\ name first = Some n.
Proof.
  unfold sendable, first_author_name.
  destruct (authors a) as [|first others].
  - split; [discriminate | intros (f & o & n & H & _); discriminate H].
  - destruct (name first) as [n|] eqn:N.
    + split; [intros _; exists first, others, n; auto | reflexivity].
    + split; [discriminate|].
      intros (f & o & n & H & Hn); injection H as <- <-; congruence.
Qed.


End Sending.

(** ** Loading the configuration *)

Section Loading.

Variable interpolate : Interpolation.
Variable config : ConfigParser.

Lemma has_option_raw section key :
  Config.has_option config section key
  = Config.is_some (Config.raw config section key).
Proof.
  unfold Config.has_option, Config.raw.
  destruct (Config.lookup key (Config.proxy config section)); reflexivity.
Qed.

Lemma getitem_missing section key :
  Config.has_option config section key = false ->
  Config.getitem interpolate config section key = Raise (KeyError key).
Proof.
  rewrite has_option_raw; unfold Config.getitem.
  destruct (Config.raw config section key); [discriminate | reflexivity].
Qed.

Lemma getitem_plain section key :
  plain_option config section key = true ->
  Config.getitem interpolate config section key = Return (value config section key).
Proof.
  unfold plain_option, value, Config.getitem; rewrite has_option_raw.
  destruct (Config.raw config section key) as [v|]; [|discriminate].
  cbn [Config.is_some andb]; intros H; apply negb_true_iff in H.
  rewrite H; reflexivity.
Qed.

Lemma plainly_loadable_loadable section :
  plainly_loadable config section = true -> loadable config section = true.
Proof.
  unfold plainly_loadable, loadable, complete, plain_option; intros H.
  repeat match goal with
         | H : _ && _ = true |- _ => apply andb_true_iff in H as [? ?]
         end.
  repeat (apply andb_true_iff; split); assumption.
Qed.

(** One turn of the loop of lines 48-66 on a section that passes the
    test of lines 51-55. *)
Lemma load_updates_complete section rest updates :
  String.eqb section "bot" = false -> complete config section = true ->
  load_updates interpolate config (section :: rest) updates
  = rbind (Config.getitem interpolate config section "category") (fun cat =>
    rbind (Config.getitem interpolate config section "chat_id") (fun chat =>
    rbind (Config.getitem interpolate config section "buzzwords") (fun words =>
    rbind (Config.getitem interpolate config section "authors") (fun auths =>
    load_updates interpolate config rest
      (updates ++ [ {| category := PyStr.split comma cat;
                       chat_id := chat;
                       buzzwords := PyStr.split comma words;
                       update_authors := PyStr.split comma auths |} ])%list)))).
Proof. intros B C; cbn [load_updates]; rewrite B, C; reflexivity. Qed.

Lemma load_updates_plain section rest updates :
  String.eqb section "bot" = false -> plainly_loadable config section = true ->
  load_updates interpolate config (section :: rest) updates
  = load_updates interpolate config rest (updates ++ [update_of config section]).
Proof.
  intros B P.
  rewrite load_updates_complete;
    [|exact B | apply plainly_loadable_loadable in P;
                apply andb_true_iff in P; apply P].
  unfold plainly_loadable in P.
  apply andb_true_iff in P as [P P4]; apply andb_true_iff in P as [P P3].
  apply andb_true_iff in P as [P1 P2].
  rewrite !getitem_plain by assumption; reflexivity.
Qed.

Lemma load_updates_returns names : forall updates,
  (forall s, In s names -> s <> "bot" -> plainly_loadable config s = true) ->
  load_updates interpolate config names updates
  = Return (updates
            ++ map (update_of config)
                   (filter (fun s => negb (String.eqb s "bot")) names))%list.
Proof.
  induction names as [|n names IH]; intros updates H.
  - simpl; rewrite app_nil_r; reflexivity.
  - assert (Hrest : forall s, In s names -> s <> "bot" ->
                              plainly_loadable config s = true)
      by (intros s Hs; apply H; right; exact Hs).
    cbn [filter]; destruct (String.eqb n "bot") eqn:B; cbn [negb].
    + cbn [load_updates]; rewrite B; apply IH; exact Hrest.
    + rewrite load_updates_plain, IH; [| exact Hrest | exact B |].
      * cbn [map]; rewrite <- app_assoc; reflexivity.
      * apply H; [left; reflexivity | apply String.eqb_neq; exact B].
Qed.

Lemma load_updates_raises names : forall updates s,
  In s names -> s <> "bot" -> loadable config s = false ->
  exists e, load_updates interpolate config names updates = Raise e.
Proof.
  induction names as [|n names IH]; intros updates s Hin Hs L; [contradiction|].
  destruct (String.eqb n "bot") eqn:B.
  - cbn [load_updates]; rewrite B.
    destruct Hin as [->|Hin]; [|eauto].
    apply String.eqb_eq in B; contradiction.
  - destruct (complete config n) eqn:C.
    + rewrite (load_updates_complete n names updates B C).
      destruct (Config.getitem interpolate config n "category"); cbn [rbind]; [|eauto].
      destruct (Config.getitem interpolate config n "chat_id"); cbn [rbind]; [|eauto].
      destruct (Config.getitem interpolate config n "buzzwords"); cbn [rbind]; [|eauto].
      destruct (Config.has_option config n "authors") eqn:A.
      * destruct (Config.getitem interpolate config n "authors"); cbn [rbind]; [|eauto].
        destruct Hin as [->|Hin]; [|eauto].
        unfold loadable in L; rewrite C, A in L; discriminate.
      * rewrite (getitem_missing n "authors" A); cbn [rbind]; eauto.
    + cbn [load_updates]; rewrite B, C; cbn [negb]; eauto.
Qed.

(** The exception of the first section that is not loadable, the
    sections before it being loaded. *)
Lemma load_updates_first_bad pre s post : forall updates,
  (forall p, In p pre -> p = "bot" \/ plainly_loadable config p = true) ->
  s <> "bot" -> loadable config s = false ->
  (complete config s = true ->
   plain_option config s "category" = true
   /\ plain_option config s "chat_id" = true
   /\ plain_option config s "buzzwords" = true) ->
  load_updates interpolate config (pre ++ s :: post) updates
  = Raise (if complete config s then KeyError "authors" else not_complete s).
Proof.
  induction pre as [|p pre IH]; intros updates Hpre Hs L Hplain.
  - cbn [app]; apply String.eqb_neq in Hs.
    destruct (complete config s) eqn:C.
    + rewrite (load_updates_complete s post updates Hs C).
      destruct (Hplain eq_refl) as (P1 & P2 & P3).
      rewrite !getitem_plain by assumption; cbn [rbind].
      unfold loadable in L; rewrite C in L; cbn [andb] in L.
      rewrite (getitem_missing s "authors" L); reflexivity.
    + cbn [load_updates]; rewrite Hs, C; reflexivity.
  - cbn [app].
    assert (Hrest : forall q, In q pre -> q = "bot" \/ plainly_loadable config q = true)
      by (intros q Hq; apply Hpre; right; exact Hq).
    destruct (String.eqb p "bot") eqn:B.
    + cbn [load_updates]; rewrite B; apply IH; assumption.
    + destruct (Hpre p (or_introl eq_refl)) as [->|Lp]; [discriminate B|].
      rewrite (load_updates_plain p _ updates B Lp); apply IH; assumption.
Qed.

Lemma load_config_of_plain :
  Config.contains config "bot" = true ->
  plain_option config "bot" "token" = true ->
  load_config_of interpolate config
  = match load_updates interpolate config (Config.sections config) [] with
    | Return updates => Return (value config "bot" "token", updates)
    | Raise e => Raise e
    end.
Proof.
  intros B T; unfold load_config_of; rewrite B, (getitem_plain "bot" "token" T).
  apply andb_true_iff in T as [T _]; rewrite T; cbn [negb rbind].
  destruct (load_updates interpolate config _ []); reflexivity.
Qed.

Lemma load_config_of_raises :
  Config.contains config "bot" = false
  \/ Config.has_option config "bot" "token" = false
  \/ (exists s, In s (Config.sections config) /\ s <> "bot"
                /\ loadable config s = false) ->
  exists e, load_config_of interpolate config = Raise e.
Proof.
  unfold load_config_of; intros [H|[H|(s & Hs & Hbot & L)]].
  - rewrite H; cbn [negb]; eauto.
  - destruct (Config.contains config "bot"); cbn [negb]; [rewrite H; cbn [negb]|]; eauto.
  - destruct (Config.contains config "bot"); cbn [negb]; [|eauto].
    destruct (Config.has_option config "bot" "token"); cbn [negb]; [|eauto].
    destruct (Config.getitem interpolate config "bot" "token"); cbn [rbind]; [|eauto].
    destruct (load_updates_raises (Config.sections config) [] s Hs Hbot L) as [e E].
    rewrite E; cbn [rbind]; eauto.
Qed.

Lemma lookup_in {V} key (d : list (string * V)) v :
  Config.lookup key d = Some v -> exists k, In (k, v) d.
Proof.
  unfold Config.lookup; intros H.
  destruct (find _ d) as [[k w]|] eqn:F; [|discriminate].
  injection H as <-; exists k; apply (find_some _ _ F).
Qed.

Lemma percent_free_value section key :
  percent_free config = true ->
  PyStr.has_char percent (value config section key) = false.
Proof.
  unfold percent_free; rewrite forallb_forall; intros H.
  unfold value, Config.raw, Config.proxy.
  destruct (Config.lookup section (cp_sections config)) as [opts|] eqn:S.
  - destruct (Config.lookup key opts) as [v|] eqn:K.
    + apply lookup_in in S as [name S]; apply lookup_in in K as [k K].
      apply negb_true_iff, (H (k, v)), in_app_iff; right.
      apply in_flat_map; exists (name, opts); auto.
    + destruct (Config.lookup key (cp_defaults config)) as [v|] eqn:D; [|reflexivity].
      apply lookup_in in D as [k D].
      apply negb_true_iff, (H (k, v)), in_app_iff; left; exact D.
  - change (Config.lookup key (@nil (string * string))) with (@None string).
    cbv beta iota.
    destruct (Config.lookup key (cp_defaults config)) as [v|] eqn:D; [|reflexivity].
    apply lookup_in in D as [k D].
    apply negb_true_iff, (H (k, v)), in_app_iff; left; exact D.
Qed.

Lemma percent_free_plain section key :
  percent_free config = true ->
  plain_option config section key = Config.has_option config section key.
Proof.
  intros H; unfold plain_option; rewrite (percent_free_value section key H).
  apply andb_true_r.
Qed.

Lemma percent_free_loadable section :
  percent_free config = true ->
  plainly_loadable config section = loadable config section.
Proof.
  intros H; unfold plainly_loadable, loadable, complete.
  rewrite !percent_free_plain by exact H; reflexivity.
Qed.

End Loading.

(** ** Deduplication (C1), the threshold (C2) and the reference algorithm (C3) *)

Lemma id_consistentb_sound l : id_consistentb l = true -> id_consistent l.
Proof.
  unfold id_consistentb, id_consistent; rewrite forallb_forall.
  intros H a b Ha Hb E.
  specialize (H a Ha); rewrite forallb_forall in H; specialize (H b Hb).
  apply String.eqb_eq in E; rewrite E in H; simpl in H.
  destruct (Entry_eq_dec a b); [assumption | discriminate].
Qed.

Lemma nodup_map_on {A B} (f : A -> B) (l : list A) :
  (forall a b, In a l -> In b l -> f a = f b -> a = b) ->
  NoDup l -> NoDup (map f l).
Proof.
  intros Hinj H; induction H as [|x l Hx Hl IH]; simpl; constructor.
  - intros Hfx; apply in_map_iff in Hfx as (y & E & Hy).
    rewrite (Hinj y x) in Hy; [contradiction | right; exact Hy | left; reflexivity | exact E].
  - apply IH; intros a b Ha Hb; apply Hinj; right; assumption.
Qed.

(** C1, as amended.  The list [articles] that [send_articles] accumulates
    never holds two equal entries, where entries are compared as whole
    dictionaries (the test [entry not in]); and when the entries fetched
    for the categories are told apart by their identifiers, no identifier
    appears twice in it. *)
Theorem relevant_set_no_duplicates :
  forall (Net : Type) (feedparser_parse : string -> Net -> list Entry * Net)
         (partial_ratio : string -> Target -> Z)
         (categories : list string) (words : Buzzwords) (net : Net),
    NoDup (RelevantSet feedparser_parse partial_ratio categories words net)
    /\ (id_consistent (fetched feedparser_parse categories net) ->
        NoDup (map id (RelevantSet feedparser_parse partial_ratio categories words net))).
Proof.
  intros Net feedparser_parse partial_ratio categories words net; split.
  - apply RelevantSet_nodup.
  - intros HU; apply nodup_map_on; [|apply RelevantSet_nodup].
    intros a b Ha Hb; apply HU.
    + apply RelevantSet_in in Ha; apply Ha.
    + apply RelevantSet_in in Hb; apply Hb.
Qed.

Lemma relevant_set_no_duplicates_witness :
  id_consistent (fetched Sample.feedparser_parse ["quant-ph"; "math.CO"] 0)
  /\ NoDup (map id (RelevantSet Sample.feedparser_parse Sample.partial_ratio
                      ["quant-ph"; "math.CO"] Sample.quantum 0)).
Proof.
  assert (H : id_consistent (fetched Sample.feedparser_parse ["quant-ph"; "math.CO"] 0)).
  { apply id_consistentb_sound; vm_compute; reflexivity. }
  split; [exact H|].
  apply (proj2 (relevant_set_no_duplicates Sample.Net Sample.feedparser_parse Sample.partial_ratio
                  ["quant-ph"; "math.CO"] Sample.quantum 0) H).
Defined.

(** C1, as stated, fails: an article listed in two categories comes as
    two entries with one identifier and different content, and both are
    kept. *)
Lemma relevant_set_repeats_identifier :
  RelevantSet Sample.feedparser_parse Sample.partial_ratio
    ["quant-ph"; "cs.DS"] Sample.quantum 0
  = [Sample.walks; Sample.walks_cross]
  /\ id Sample.walks = id Sample.walks_cross
  /\ Sample.walks <> Sample.walks_cross.
Proof.
  split; [vm_compute; reflexivity|].
  split; [reflexivity | discriminate].
Qed.

(** What [get_articles] returns: the entries of the feed that some
    buzzword or some author name matches. *)
Lemma get_articles_in Net (feedparser_parse : string -> Net -> list Entry * Net)
      partial_ratio cat words net e :
  In e (fold_left append_new
          (filter (hit partial_ratio words) (fst (feedparser_parse (rss_url cat) net))) [])
  <-> In e (fst (feedparser_parse (rss_url cat) net))
      /\ ((exists b, In b (for_article words)
                     /\ ((90 < partial_ratio b (Str (title e)))%Z
                         \/ (90 < partial_ratio b (Str (summary e)))%Z))
          \/ (exists a, In a (for_authors words)
                        /\ (90 < partial_ratio a (AuthorList (authors e)))%Z)).
Proof.
  rewrite merge_in, filter_In; simpl.
  unfold hit; rewrite orb_true_iff, !existsb_exists.
  unfold article_hit, author_hit, fuzzy_match.
  split.
  - intros [[]|[He [(b & Hb & H)|(a & Ha & H)]]]; (split; [exact He|]).
    + left; exists b; split; [exact Hb|].
      apply orb_true_iff in H; rewrite !Z.ltb_lt in H; exact H.
    + right; exists a; split; [exact Ha | apply Z.ltb_lt; exact H].
  - intros [He [(b & Hb & H)|(a & Ha & H)]]; right; (split; [exact He|]).
    + left; exists b; split; [exact Hb|].
      apply orb_true_iff; rewrite !Z.ltb_lt; exact H.
    + right; exists a; split; [exact Ha | apply Z.ltb_lt; exact H].
Qed.

(** C2.  The comparison of lines 92 and 97 reports a match exactly when
    the score is strictly above 90: a score of 90 is no match and a score
    of 91 is one; and [get_articles] returns the entries of the feed for
    which some buzzword scores above 90 on the title or the summary, or
    some author name scores above 90 on the author list. *)
Theorem fuzzy_match_threshold :
  forall (Net : Type) (feedparser_parse : string -> Net -> list Entry * Net)
         (partial_ratio : string -> Target -> Z),
    (forall query target,
        fuzzy_match partial_ratio query target = true
        <-> (90 < partial_ratio query target)%Z)
    /\ (forall query target,
           partial_ratio query target = 90%Z ->
           fuzzy_match partial_ratio query target = false)
    /\ (forall query target,
           partial_ratio query target = 91%Z ->
           fuzzy_match partial_ratio query target = true)
    /\ (forall cat words net,
           exists res,
             outcome_of (get_articles feedparser_parse partial_ratio cat words net)
             = Return res
             /\ forall e,
                 In e res
                 <-> In e (fst (feedparser_parse (rss_url cat) net))
                     /\ ((exists b, In b (for_article words)
                                    /\ ((90 < partial_ratio b (Str (title e)))%Z
                                        \/ (90 < partial_ratio b (Str (summary e)))%Z))
                         \/ (exists a, In a (for_authors words)
                                       /\ (90 < partial_ratio a
                                                  (AuthorList (authors e)))%Z))).
Proof.
  intros Net feedparser_parse partial_ratio; unfold fuzzy_match.
  split; [intros; apply Z.ltb_lt|].
  split; [intros query target E; rewrite E; reflexivity|].
  split; [intros query target E; rewrite E; reflexivity|].
  intros cat words net; rewrite get_articles_run.
  eexists; split; [reflexivity|].
  intros e; apply get_articles_in.
Qed.

Lemma fuzzy_match_threshold_witness :
  (Sample.partial_ratio "xyQuantum" (Str "Quantum walks") = 90%Z
   /\ fuzzy_match Sample.partial_ratio "xyQuantum" (Str "Quantum walks") = false)
  /\ (Sample.partial_ratio "xQuantum" (Str "Quantum walks") = 91%Z
      /\ fuzzy_match Sample.partial_ratio "xQuantum" (Str "Quantum walks") = true).
Proof.
  pose proof (fuzzy_match_threshold Sample.Net Sample.feedparser_parse Sample.partial_ratio)
    as (_ & H90 & H91 & _).
  split; (split; [reflexivity|]).
  - apply H90; reflexivity.
  - apply H91; reflexivity.
Defined.

(** C3, as amended.  When the entries fetched for the filter set's
    categories are told apart by their identifiers, the reference
    algorithm of section 4.2 and the code (every keyword and every author
    tried, each hit guarded by the membership test) compute the same
    list, element for element and in order, with the same requests. *)
Theorem reference_agrees_with_code :
  forall (Net : Type) (feedparser_parse : string -> Net -> list Entry * Net)
         (partial_ratio : string -> Target -> Z) (f : FilterSet) (net : Net),
    id_consistent (fetched feedparser_parse (fs_categories f) net) ->
    spec_evaluate feedparser_parse partial_ratio f net
    = collect feedparser_parse partial_ratio (fs_categories f) (words_of f) [] net
    /\ outcome_of (spec_evaluate feedparser_parse partial_ratio f net)
       = Return (RelevantSet feedparser_parse partial_ratio
                   (fs_categories f) (words_of f) net).
Proof.
  intros Net feedparser_parse partial_ratio f net HU.
  assert (E : spec_evaluate feedparser_parse partial_ratio f net
              = collect feedparser_parse partial_ratio
                  (fs_categories f) (words_of f) [] net).
  { unfold spec_evaluate; rewrite spec_evaluate_run, collect_run.
    rewrite (spec_merge (fetched feedparser_parse (fs_categories f) net));
      [reflexivity | exact HU | intros x [] |].
    intros x Hx; apply filter_In in Hx; apply Hx. }
  split; [exact E|].
  rewrite E; unfold RelevantSet, outcome_of; rewrite collect_run; reflexivity.
Qed.

Lemma reference_agrees_with_code_witness :
  id_consistent (fetched Sample.feedparser_parse ["quant-ph"; "math.CO"] 0)
  /\ outcome_of (spec_evaluate Sample.feedparser_parse Sample.partial_ratio
                   {| fs_categories := ["quant-ph"; "math.CO"];
                      fs_keywords := ["Quantum"; "walks"];
                      fs_authors := ["Ada Lovelace"];
                      fs_destination := "42";
                      fs_quiet := false |} 0)
     = Return [Sample.walks; Sample.anonymous].
Proof.
  assert (H : id_consistent (fetched Sample.feedparser_parse ["quant-ph"; "math.CO"] 0)).
  { apply id_consistentb_sound; vm_compute; reflexivity. }
  split; [exact H|].
  refine (eq_trans
            (proj2 (reference_agrees_with_code Sample.Net Sample.feedparser_parse
                      Sample.partial_ratio
                      {| fs_categories := ["quant-ph"; "math.CO"];
                         fs_keywords := ["Quantum"; "walks"];
                         fs_authors := ["Ada Lovelace"];
                         fs_destination := "42";
                         fs_quiet := false |} 0 H)) _).
  vm_compute; reflexivity.
Defined.

(** C3, as stated, fails: on two entries with one identifier the
    reference algorithm keeps the first and the code keeps both. *)
Lemma reference_differs_on_shared_identifier :
  outcome_of (spec_evaluate Sample.feedparser_parse Sample.partial_ratio
                Sample.quantum_filter 0)
  = Return [Sample.walks]
  /\ RelevantSet Sample.feedparser_parse Sample.partial_ratio
       (fs_categories Sample.quantum_filter) (words_of Sample.quantum_filter) 0
     = [Sample.walks; Sample.walks_cross].
Proof. split; vm_compute; reflexivity. Qed.

(** ** Notifications (C4, C5, C10) *)

(** C4.  When the accumulated list is empty, [send_articles] returns
    normally and the bot is called not at all under [quiet], and once
    otherwise, with the nothing-of-interest text for the chat. *)
Theorem nothing_found_notification :
  forall (Net : Type) (feedparser_parse : string -> Net -> list Entry * Net)
         (partial_ratio : string -> Target -> Z) (bot : TeleBot) (chat : string)
         (categories : list string) (words : Buzzwords) (quiet : bool) (net : Net),
    RelevantSet feedparser_parse partial_ratio categories words net = [] ->
    outcome_of (send_articles feedparser_parse partial_ratio bot chat
                  categories words quiet net) = Return tt
    /\ sent (trace_of (send_articles feedparser_parse partial_ratio bot chat
                         categories words quiet net))
       = if quiet then [] else [(chat, nothing_text)].
Proof.
  intros Net feedparser_parse partial_ratio bot chat categories words quiet net E.
  rewrite send_articles_run, E; unfold outcome_of, trace_of; cbn [fst snd].
  split; [reflexivity|].
  rewrite sent_app, sent_parse; destruct quiet; reflexivity.
Qed.

Lemma nothing_found_notification_witness :
  RelevantSet Sample.feedparser_parse Sample.partial_ratio
    ["quant-ph"] Sample.topology 0 = []
  /\ sent (trace_of (send_articles Sample.feedparser_parse Sample.partial_ratio
                       Sample.bot "42" ["quant-ph"] Sample.topology false 0))
     = [("42", "I scraped the arXiv RSS but found nothing of interest for you. Sorry.")]
  /\ sent (trace_of (send_articles Sample.feedparser_parse Sample.partial_ratio
                       Sample.bot "42" ["quant-ph"] Sample.topology true 0))
     = [].
Proof.
  assert (H : RelevantSet Sample.feedparser_parse Sample.partial_ratio
                ["quant-ph"] Sample.topology 0 = []) by (vm_compute; reflexivity).
  split; [exact H|]; split.
  - apply (proj2 (nothing_found_notification Sample.Net Sample.feedparser_parse
                    Sample.partial_ratio Sample.bot "42" ["quant-ph"]
                    Sample.topology false 0 H)).
  - apply (proj2 (nothing_found_notification Sample.Net Sample.feedparser_parse
                    Sample.partial_ratio Sample.bot "42" ["quant-ph"]
                    Sample.topology true 0 H)).
Defined.

(** C5, as amended.  When the accumulated list holds n > 0 articles and
    each of them has a first author with a name, [send_articles] returns
    normally after n + 1 calls of the bot: first the message that states
    n, then one message per article in the order of the list, each made
    of the title, the first author's name, the identifier and the cleaned
    summary. *)
Theorem found_notifications :
  forall (Net : Type) (feedparser_parse : string -> Net -> list Entry * Net)
         (partial_ratio : string -> Target -> Z) (bot : TeleBot) (chat : string)
         (categories : list string) (words : Buzzwords) (quiet : bool) (net : Net)
         (articles : list Entry),
    RelevantSet feedparser_parse partial_ratio categories words net = articles ->
    articles <> [] ->
    (forall a, In a articles ->
       exists first others n, authors a = first :: others /\ name first = Some n) ->
    let run := send_articles feedparser_parse partial_ratio bot chat
                 categories words quiet net in
    outcome_of run = Return tt
    /\ sent (trace_of run)
       = (chat, "You are going to be happy. I found " ++ PyStr.of_nat (length articles)
                ++ " article(s) of potential interest.")
         :: map (fun a => (chat, message_of a)) articles
    /\ length (sent (trace_of run)) = length articles + 1
    /\ (forall a, In a articles ->
          exists first others n,
            authors a = first :: others /\ name first = Some n
            /\ message_of a
               = "<strong>Title</strong>: " ++ title a ++ PyStr.newline
                 ++ "<strong>Authors</strong>: " ++ n ++ PyStr.newline
                 ++ "<strong>Link</strong>: " ++ id a ++ PyStr.newline
                 ++ "<strong>Abstract:</strong>" ++ PyStr.newline
                 ++ processed_summary (summary a)).
Proof.
  intros Net feedparser_parse partial_ratio bot chat categories words quiet net
         articles E Hne Hauth run.
  subst run; rewrite send_articles_run, E; unfold outcome_of, trace_of; cbn [fst snd].
  assert (Hall : forallb sendable articles = true).
  { apply forallb_forall; intros a Ha; apply sendable_named, Hauth, Ha. }
  destruct articles as [|a0 rest]; [contradiction Hne; reflexivity|].
  rewrite (send_failure_none _ Hall).
  assert (S : sent (map Parse (map rss_url categories)
                    ++ Print (PEntries (a0 :: rest))
                    :: SendMessage bot chat (found_text (length (a0 :: rest)))
                    :: send_events bot chat (a0 :: rest))
              = (chat, found_text (length (a0 :: rest)))
                :: map (fun a => (chat, message_of a)) (a0 :: rest)).
  { rewrite sent_app, sent_parse.
    change (sent (Print (PEntries (a0 :: rest))
                  :: SendMessage bot chat (found_text (length (a0 :: rest)))
                  :: send_events bot chat (a0 :: rest)))
      with ((chat, found_text (length (a0 :: rest)))
            :: sent (send_events bot chat (a0 :: rest))).
    rewrite (send_events_all bot chat _ Hall); reflexivity. }
  split; [reflexivity|].
  split; [exact S|].
  split; [rewrite S; cbn [length]; rewrite length_map; cbn [length]; lia|].
  intros a Ha; destruct (Hauth a Ha) as (first & others & n & Ea & En).
  exists first, others, n; split; [exact Ea|]; split; [exact En|].
  unfold message_of, first_author_name; rewrite Ea, En; reflexivity.
Qed.

Lemma found_notifications_witness :
  RelevantSet Sample.feedparser_parse Sample.partial_ratio
    ["quant-ph"] Sample.quantum 0 = [Sample.walks]
  /\ sent (trace_of (send_articles Sample.feedparser_parse Sample.partial_ratio
                       Sample.bot "42" ["quant-ph"] Sample.quantum false 0))
     = [("42", "You are going to be happy. I found 1 article(s) of potential interest.");
        ("42", "<strong>Title</strong>: Quantum walks on graphs" ++ PyStr.newline
               ++ "<strong>Authors</strong>: Ada Lovelace" ++ PyStr.newline
               ++ "<strong>Link</strong>: http://arxiv.org/abs/2101.00001" ++ PyStr.newline
               ++ "<strong>Abstract:</strong>" ++ PyStr.newline
               ++ "Line one Line two")].
Proof.
  assert (H : RelevantSet Sample.feedparser_parse Sample.partial_ratio
                ["quant-ph"] Sample.quantum 0 = [Sample.walks])
    by (vm_compute; reflexivity).
  split; [exact H|].
  refine (eq_trans
            (proj1 (proj2 (found_notifications Sample.Net Sample.feedparser_parse
                             Sample.partial_ratio Sample.bot "42" ["quant-ph"]
                             Sample.quantum false 0 [Sample.walks] H _ _))) _).
  - discriminate.
  - intros a [<-|[]]; do 3 eexists; split; reflexivity.
  - vm_compute; reflexivity.
Defined.

(** C5, as stated, fails: a matched article whose only author dictionary
    has no name gives a list of one article, and the bot is called once,
    not twice, before [send_articles] ends with the KeyError of
    ['name']. *)
Lemma found_notifications_stop_without_name :
  RelevantSet MoreSamples.feedparser_parse Sample.partial_ratio
    ["stat.ML"] Sample.quantum 0 = [MoreSamples.nameless]
  /\ authors MoreSamples.nameless = [ {| name := None |} ]
  /\ outcome_of (send_articles MoreSamples.feedparser_parse Sample.partial_ratio
                   Sample.bot "42" ["stat.ML"] Sample.quantum false 0)
     = Raise (KeyError "name")
  /\ sent (trace_of (send_articles MoreSamples.feedparser_parse Sample.partial_ratio
                       Sample.bot "42" ["stat.ML"] Sample.quantum false 0))
     = [("42", "You are going to be happy. I found 1 article(s) of potential interest.")].
Proof. repeat split; vm_compute; reflexivity. Qed.



(** ** The cleaned summary (C6) *)

(** C6, as amended.  The first pass turns every line feed of the summary
    into one space, and the cleaned summary never holds a line feed; and
    for a summary made of ["<p>"] tags, ["</p>"] tags and stretches of
    text that hold no such tag and do not end with the start of one
    (["<"], ["<p"], ["</"] or ["</p"]), the cleaned summary is the text
    with every line feed turned into a space, in which no ["<p>"] and no
    ["</p>"] is left. *)
Theorem summary_cleaning :
  forall s : string,
    PyStr.replace PyStr.newline " " s = spaces s
    /\ PyStr.has_char PyStr.LF (processed_summary s) = false
    /\ (forall ps,
           s = render ps -> forallb tidy ps = true ->
           processed_summary s = stripped ps
           /\ PyStr.occurs "<p>" (processed_summary s) = false
           /\ PyStr.occurs "</p>" (processed_summary s) = false).
Proof.
  intros s; split; [apply Cleaning.replace_newline|].
  split; [apply Cleaning.processed_summary_no_newline|].
  intros ps -> H.
  rewrite (Tidy.processed_summary_tidy ps H).
  destruct (Tidy.stripped_clear ps H) as [Ho Hc].
  split; [reflexivity|].
  split; apply Tidy.clear_of_occurs; assumption.
Qed.

Lemma summary_cleaning_witness :
  processed_summary ("<p>Line one" ++ PyStr.newline ++ "Line two</p>")
  = "Line one Line two"
  /\ processed_summary "<p>We show a < b and p>0 for 1</2.</p><p>Then stop</p>"
     = "We show a < b and p>0 for 1</2.Then stop".
Proof.
  split.
  - apply (proj1 (proj2 (proj2 (summary_cleaning
                                  ("<p>Line one" ++ PyStr.newline ++ "Line two</p>")))
                    [OpenP; Text ("Line one" ++ PyStr.newline ++ "Line two"); CloseP]
                    eq_refl eq_refl)).
  - apply (proj1 (proj2 (proj2 (summary_cleaning
                                  "<p>We show a < b and p>0 for 1</2.</p><p>Then stop</p>"))
                    [OpenP; Text "We show a < b and p>0 for 1</2."; CloseP;
                     OpenP; Text "Then stop"; CloseP]
                    eq_refl eq_refl)).
Defined.

(** C6, as stated, fails: each pattern is deleted in one pass from the
    left, so a tag that the deletions themselves put together stays. *)
Lemma summary_cleaning_leaves_tag :
  processed_summary "<<p>p>" = "<p>"
  /\ PyStr.occurs "<p>" (processed_summary "<<p>p>") = true
  /\ processed_summary "<</p>/p>" = "</p>"
  /\ PyStr.occurs "</p>" (processed_summary "<</p>/p>") = true.
Proof. repeat split; vm_compute; reflexivity. Qed.

(** ** Configuration errors (C7, C9) and the date gate (C8) *)

Section MainFacts.

Variable Net : Type.
Variable feedparser_parse : string -> Net -> list Entry * Net.
Variable partial_ratio : string -> Target -> Z.
Variable config_read : string -> Result ConfigParser.
Variable interpolate : Interpolation.

(** An exception of [load_config] leaves [main] at once. *)
Lemma main_raises args e (net : Net) :
  load_config config_read interpolate (path_of args) = Raise e ->
  main feedparser_parse partial_ratio config_read interpolate args net
  = (Raise e, [path_notice args], net).
Proof.
  intros H; unfold main, bind, print, emit; rewrite H; reflexivity.
Qed.

Lemma program_raises today args e (net : Net) :
  skip_day today = false ->
  load_config config_read interpolate (path_of args) = Raise e ->
  program feedparser_parse partial_ratio config_read interpolate today args net
  = (1%Z, [path_notice args], net).
Proof.
  intros Hday H; unfold program; rewrite Hday, (main_raises args e net H).
  reflexivity.
Qed.

(** When every section has the three tested options, without [%], and
    the [authors] that are there hold no [%], a section without [authors]
    ends the loop with the failed lookup. *)
Lemma load_updates_key_error config names : forall updates s,
  In s names -> s <> "bot" -> Config.has_option config s "authors" = false ->
  (forall p, In p names -> p <> "bot" ->
     plain_option config p "category" = true
     /\ plain_option config p "chat_id" = true
     /\ plain_option config p "buzzwords" = true
     /\ (Config.has_option config p "authors" = true ->
         plain_option config p "authors" = true)) ->
  load_updates interpolate config names updates = Raise (KeyError "authors").
Proof.
  induction names as [|n names IH]; intros updates s Hin Hs A H; [contradiction|].
  assert (Hrest : forall p, In p names -> p <> "bot" ->
            plain_option config p "category" = true
            /\ plain_option config p "chat_id" = true
            /\ plain_option config p "buzzwords" = true
            /\ (Config.has_option config p "authors" = true ->
                plain_option config p "authors" = true))
    by (intros p Hp; apply H; right; exact Hp).
  destruct (String.eqb n "bot") eqn:B.
  - cbn [load_updates]; rewrite B.
    destruct Hin as [->|Hin]; [apply String.eqb_eq in B; contradiction|].
    apply (IH _ s); assumption.
  - destruct (H n (or_introl eq_refl)) as (P1 & P2 & P3 & P4);
      [apply String.eqb_neq; exact B|].
    destruct (Config.has_option config n "authors") eqn:An.
    + rewrite load_updates_plain;
        [|exact B | unfold plainly_loadable; rewrite P1, P2, P3, (P4 eq_refl); reflexivity].
      destruct Hin as [->|Hin]; [congruence|].
      apply (IH _ s); assumption.
    + assert (C : complete config n = true).
      { unfold complete.
        apply andb_true_iff in P1 as [P1 _]; apply andb_true_iff in P2 as [P2 _].
        apply andb_true_iff in P3 as [P3 _]; rewrite P1, P2, P3; reflexivity. }
      pose proof (load_updates_first_bad interpolate config [] n names updates) as F.
      cbn [app] in F; rewrite F;
        [ rewrite C; reflexivity
        | intros p []
        | apply String.eqb_neq; exact B
        | unfold loadable; rewrite An; apply andb_false_r
        | intros _; auto ].
Qed.

End MainFacts.

(** C7, as amended.  For a file that parses: when the [bot] section is
    missing, or [token] is missing from it, or a section other than
    [bot] lacks [category], [chat_id] or [buzzwords] (the section does
    not hold it and [DEFAULT] does not either), [load_config] raises;
    [main] then ends with that exception having printed the path and
    nothing else, so no feed is requested and no message is sent, and on
    a day that is not skipped the process exits with status 1.
    Conversely [load_config] returns the token and the updates when the
    [bot] section, its [token] and, in every other section, [category],
    [chat_id], [buzzwords] and [authors] are present with values that
    hold no [%]. *)
Theorem configuration_errors :
  forall (Net : Type) (feedparser_parse : string -> Net -> list Entry * Net)
         (partial_ratio : string -> Target -> Z)
         (config_read : string -> Result ConfigParser) (interpolate : Interpolation)
         (args : Args) (net : Net) (config : ConfigParser),
    config_read (path_of args) = Return config ->
    ((Config.contains config "bot" = false
      \/ Config.has_option config "bot" "token" = false
      \/ (exists s, In s (Config.sections config) /\ s <> "bot"
                    /\ (Config.has_option config s "category" = false
                        \/ Config.has_option config s "chat_id" = false
                        \/ Config.has_option config s "buzzwords" = false))) ->
     exists e tr,
       load_config config_read interpolate (path_of args) = Raise e
       /\ main feedparser_parse partial_ratio config_read interpolate args net
          = (Raise e, tr, net)
       /\ tr = [path_notice args]
       /\ sent tr = [] /\ fetched_urls tr = []
       /\ forall today,
           skip_day today = false ->
           program feedparser_parse partial_ratio config_read interpolate
             today args net
           = (1%Z, tr, net))
    /\ (Config.contains config "bot" = true ->
        plain_option config "bot" "token" = true ->
        (forall s, In s (Config.sections config) -> s <> "bot" ->
                   plain_option config s "category" = true
                   /\ plain_option config s "chat_id" = true
                   /\ plain_option config s "buzzwords" = true
                   /\ plain_option config s "authors" = true) ->
        load_config config_read interpolate (path_of args)
        = Return (value config "bot" "token",
                  map (update_of config) (update_sections config))).
Proof.
  intros Net feedparser_parse partial_ratio config_read interpolate args net config R.
  assert (L : load_config config_read interpolate (path_of args)
              = load_config_of interpolate config)
    by (unfold load_config; rewrite R; reflexivity).
  split.
  - intros H.
    destruct (load_config_of_raises interpolate config) as [e E].
    { destruct H as [H|[H|(s & Hs & Hbot & H)]]; [auto | auto |].
      right; right; exists s; repeat split; [exact Hs | exact Hbot |].
      unfold loadable, complete; destruct H as [H|[H|H]]; rewrite H;
        rewrite ?andb_false_r; reflexivity. }
    rewrite <- L in E.
    exists e, [path_notice args].
    split; [exact E|].
    split; [apply main_raises; exact E|].
    repeat split.
    intros today Hday; apply (program_raises _ _ _ _ _ today args e net Hday E).
  - intros Hbot Htoken Hall; rewrite L.
    rewrite (load_config_of_plain interpolate config Hbot Htoken).
    rewrite load_updates_returns; [reflexivity|].
    intros s Hs Hne; destruct (Hall s Hs Hne) as (C1 & C2 & C3 & C4).
    unfold plainly_loadable; rewrite C1, C2, C3, C4; reflexivity.
Qed.

Lemma configuration_errors_witness :
  (exists e,
      load_config Sample.config_read Sample.interpolate "/etc/no_buzzwords.ini"
      = Raise e
      /\ program Sample.feedparser_parse Sample.partial_ratio Sample.config_read
           Sample.interpolate Monday (Sample.args "/etc/no_buzzwords.ini") 0
         = (1%Z, [path_notice (Sample.args "/etc/no_buzzwords.ini")], 0))
  /\ load_config Sample.config_read Sample.interpolate "/etc/good.ini"
     = Return ("123:abc",
               [ {| category := ["quant-ph"; "cs.DS"]; chat_id := "42";
                    buzzwords := ["Quantum"; "walks"];
                    update_authors := ["Ada Lovelace"] |} ]).
Proof.
  split.
  - destruct (proj1 (configuration_errors Sample.Net Sample.feedparser_parse
                       Sample.partial_ratio Sample.config_read Sample.interpolate
                       (Sample.args "/etc/no_buzzwords.ini") 0
                       Sample.no_buzzwords eq_refl))
      as (e & tr & E & _ & -> & _ & _ & P).
    { right; right; exists "quantum".
      split; [right; left; reflexivity|].
      split; [discriminate | right; right; reflexivity]. }
    exists e; split; [exact E | apply P; reflexivity].
  - refine (eq_trans
              (proj2 (configuration_errors Sample.Net Sample.feedparser_parse
                        Sample.partial_ratio Sample.config_read Sample.interpolate
                        (Sample.args "/etc/good.ini") 0 Sample.good eq_refl)
                 eq_refl eq_refl _) _).
    + intros s [<-|[<-|[]]] Hne; [contradiction Hne; reflexivity|].
      repeat split.
    + vm_compute; reflexivity.
Defined.

(** C7, as stated, fails in its converse: a configuration with the [bot]
    section, its [token] and a section holding [category], [chat_id] and
    [buzzwords] does not load when neither that section nor [DEFAULT] has
    [authors]. *)
Lemma configuration_without_authors_fails :
  Sample.config_read "/etc/no_authors.ini" = Return Sample.no_authors
  /\ Config.contains Sample.no_authors "bot" = true
  /\ Config.has_option Sample.no_authors "bot" "token" = true
  /\ Config.sections Sample.no_authors = ["bot"; "quantum"]
  /\ Config.has_option Sample.no_authors "quantum" "category" = true
  /\ Config.has_option Sample.no_authors "quantum" "chat_id" = true
  /\ Config.has_option Sample.no_authors "quantum" "buzzwords" = true
  /\ percent_free Sample.no_authors = true
  /\ load_config Sample.config_read Sample.interpolate "/etc/no_authors.ini"
     = Raise (KeyError "authors").
Proof. repeat split. Qed.

(** C8.  On Saturday and on Sunday, and on no other day, the script
    prints its notice and exits with status 0: the configuration is not
    read, no feed is requested and no message is sent. *)
Theorem weekend_skip :
  forall (Net : Type) (feedparser_parse : string -> Net -> list Entry * Net)
         (partial_ratio : string -> Target -> Z)
         (config_read : string -> Result ConfigParser) (interpolate : Interpolation)
         (args : Args) (net : Net),
    program feedparser_parse partial_ratio config_read interpolate Saturday args net
    = (0%Z, [Print (PStr "C'est le week-end!")], net)
    /\ program feedparser_parse partial_ratio config_read interpolate Sunday args net
       = (0%Z, [Print (PStr "C'est le week-end!")], net)
    /\ sent [Print (PStr "C'est le week-end!")] = []
    /\ fetched_urls [Print (PStr "C'est le week-end!")] = []
    /\ (forall today, skip_day today = true <-> today = Saturday \/ today = Sunday).
Proof.
  intros; repeat split; try (intros [H|H]; subst; reflexivity).
  destruct today; intros H; try discriminate H; auto.
Qed.

(** C9, as amended.  A configuration with a section other than [bot]
    that holds [category], [chat_id] and [buzzwords] and for which neither
    the section nor [DEFAULT] gives [authors] does not load:
    [load_config] raises, and when the [bot] section, its [token] and the
    three tested options of every section are present with values that
    hold no [%], what it raises is the KeyError of the lookup of
    [authors]. *)
Theorem authors_is_mandatory :
  forall (config_read : string -> Result ConfigParser) (interpolate : Interpolation)
         (path s : string) (config : ConfigParser),
    config_read path = Return config ->
    In s (Config.sections config) -> s <> "bot" ->
    Config.has_option config s "category" = true ->
    Config.has_option config s "chat_id" = true ->
    Config.has_option config s "buzzwords" = true ->
    Config.has_option config s "authors" = false ->
    (exists e, load_config config_read interpolate path = Raise e)
    /\ (Config.contains config "bot" = true ->
        plain_option config "bot" "token" = true ->
        (forall p, In p (Config.sections config) -> p <> "bot" ->
           plain_option config p "category" = true
           /\ plain_option config p "chat_id" = true
           /\ plain_option config p "buzzwords" = true
           /\ (Config.has_option config p "authors" = true ->
               plain_option config p "authors" = true)) ->
        load_config config_read interpolate path = Raise (KeyError "authors")).
Proof.
  intros config_read interpolate path s config R Hs Hne _ _ _ A.
  unfold load_config; rewrite R; split.
  - apply load_config_of_raises; right; right; exists s.
    repeat split; [exact Hs | exact Hne |].
    unfold loadable; rewrite A; apply andb_false_r.
  - intros Hbot Htoken Hall.
    rewrite (load_config_of_plain interpolate config Hbot Htoken).
    rewrite (load_updates_key_error interpolate config (Config.sections config)
               [] s Hs Hne A Hall).
    reflexivity.
Qed.

Lemma authors_is_mandatory_witness :
  In "quantum" (Config.sections Sample.no_authors)
  /\ Config.has_option Sample.no_authors "quantum" "authors" = false
  /\ load_config Sample.config_read Sample.interpolate "/etc/no_authors.ini"
     = Raise (KeyError "authors").
Proof.
  split; [right; left; reflexivity|].
  split; [reflexivity|].
  apply (proj2 (authors_is_mandatory Sample.config_read Sample.interpolate
                  "/etc/no_authors.ini" "quantum" Sample.no_authors eq_refl
                  (or_intror (or_introl eq_refl))
                  ltac:(discriminate) eq_refl eq_refl eq_refl eq_refl)
           eq_refl eq_refl).
  intros p [<-|[<-|[]]] Hne; [contradiction Hne; reflexivity|].
  repeat split; intros H; discriminate H.
Defined.

(** C9, as stated, fails: a section that omits [authors] loads when
    [DEFAULT] gives one, which the section then inherits. *)
Lemma authors_from_default_loads :
  Config.lookup "authors" (Config.proxy MoreSamples.authors_by_default "quantum")
  = None
  /\ Config.lookup "category" (Config.proxy MoreSamples.authors_by_default "quantum")
     = Some "quant-ph"
  /\ Config.lookup "chat_id" (Config.proxy MoreSamples.authors_by_default "quantum")
     = Some "42"
  /\ Config.lookup "buzzwords" (Config.proxy MoreSamples.authors_by_default "quantum")
     = Some "Quantum"
  /\ load_config MoreSamples.config_read Sample.interpolate
       "/etc/authors_by_default.ini"
     = Return ("123:abc",
               [ {| category := ["quant-ph"]; chat_id := "42";
                    buzzwords := ["Quantum"];
                    update_authors := ["Ada Lovelace"] |} ]).
Proof. repeat split. Qed.

(** * Further properties of the code *)

(** ** Splitting option values (lines 61-64) *)

Lemma split_not_nil sep s : PyStr.split sep s <> [].
Proof.
  destruct s as [|c s]; simpl; [discriminate|].
  destruct (Ascii.eqb c sep); [discriminate|].
  destruct (PyStr.split sep s); discriminate.
Qed.

Lemma concat_cons_cons sep x y l :
  String.concat sep (x :: y :: l) = x ++ sep ++ String.concat sep (y :: l).
Proof. reflexivity. Qed.

Lemma concat_push sep c h t :
  String.concat sep (String c h :: t) = String c (String.concat sep (h :: t)).
Proof. destruct t; reflexivity. Qed.

Lemma split_concat sep s : String.concat (String sep "") (PyStr.split sep s) = s.
Proof.
  induction s as [|c s IH]; [reflexivity|]; cbn [PyStr.split].
  destruct (Ascii.eqb c sep) eqn:E.
  - apply Ascii.eqb_eq in E; subst c.
    destruct (PyStr.split sep s) as [|h t] eqn:S; [destruct (split_not_nil sep s S)|].
    rewrite concat_cons_cons, IH; reflexivity.
  - destruct (PyStr.split sep s) as [|h t] eqn:S; [destruct (split_not_nil sep s S)|].
    rewrite concat_push, IH; reflexivity.
Qed.

Lemma split_pieces sep s :
  Forall (fun piece => PyStr.has_char sep piece = false) (PyStr.split sep s).
Proof.
  induction s as [|c s IH]; cbn [PyStr.split]; [repeat constructor|].
  destruct (Ascii.eqb c sep) eqn:E; [constructor; [reflexivity | exact IH]|].
  destruct (PyStr.split sep s) as [|h t] eqn:S; [destruct (split_not_nil sep s S)|].
  inversion IH as [|? ? Hh Ht]; subst; constructor; [|exact Ht].
  cbn [PyStr.has_char]; rewrite Hh, orb_false_r, Ascii.eqb_sym; exact E.
Qed.

Lemma split_length sep s : length (PyStr.split sep s) = S (count_char sep s).
Proof.
  induction s as [|c s IH]; [reflexivity|]; cbn [PyStr.split count_char].
  destruct (Ascii.eqb c sep); cbn [length Nat.add]; [rewrite IH; reflexivity|].
  destruct (PyStr.split sep s) as [|h t]; [discriminate IH | exact IH].
Qed.

(** X1.  Splitting an option value at the commas loses nothing: there is
    always at least one piece, one more than there are commas, no piece
    holds a comma, and the pieces joined by commas are the value again. *)
Theorem split_round_trip :
  forall s : string,
    PyStr.split comma s <> []
    /\ length (PyStr.split comma s) = S (count_char comma s)
    /\ Forall (fun piece => PyStr.has_char comma piece = false) (PyStr.split comma s)
    /\ String.concat "," (PyStr.split comma s) = s.
Proof.
  intros s; split; [apply split_not_nil|].
  split; [apply split_length|].
  split; [apply split_pieces | apply (split_concat comma)].
Qed.

(** ** [flatten] (lines 69-70) *)

Lemma append_items {A} (sublist : list A) : forall res,
  fold_left (fun res item => (res ++ [item])%list) sublist res = (res ++ sublist)%list.
Proof.
  induction sublist as [|x sublist IH]; intros res; simpl.
  - rewrite app_nil_r; reflexivity.
  - rewrite IH, <- app_assoc; reflexivity.
Qed.

Lemma flatten_from {A} (l : list (list A)) : forall res,
  fold_left (fun res sublist =>
               fold_left (fun res item => (res ++ [item])%list) sublist res) l res
  = (res ++ concat l)%list.
Proof.
  induction l as [|sub l IH]; intros res; simpl.
  - rewrite app_nil_r; reflexivity.
  - rewrite IH, append_items, <- app_assoc; reflexivity.
Qed.

(** X2.  [flatten] lays the sublists end to end in their order: it holds
    the items of the sublists and no others, as many as the sublists
    hold together, and flattening two lists one after the other is
    flattening their concatenation. *)
Theorem flatten_concatenates :
  forall (A : Type) (l l' : list (list A)),
    flatten l = concat l
    /\ (forall x, In x (flatten l) <-> exists sublist, In sublist l /\ In x sublist)
    /\ length (flatten l) = list_sum (map (@length A) l)
    /\ flatten (l ++ l') = (flatten l ++ flatten l')%list.
Proof.
  intros A l l'.
  assert (E : forall m : list (list A), flatten m = concat m)
    by (intros m; unfold flatten; rewrite flatten_from; reflexivity).
  split; [apply E|].
  split.
  - intros x; rewrite E, in_concat; split; intros (sub & H1 & H2); exists sub; auto.
  - split; [|rewrite !E; apply concat_app].
    rewrite E; induction l as [|sub l IH]; [reflexivity|].
    simpl; rewrite length_app, IH; reflexivity.
Qed.

(** ** What [load_config] returns and raises (lines 34-67) *)

Lemma update_of_lists config s :
  category (update_of config s) <> []
  /\ buzzwords (update_of config s) <> []
  /\ update_authors (update_of config s) <> [].
Proof. repeat split; apply split_not_nil. Qed.

(** X3.  An error of [config.read] is the error of [load_config].  For
    a file that parses and whose values hold no [%], [load_config]
    returns exactly when the configuration has a [bot] section with a
    [token] and, in every other section, the options [category],
    [chat_id], [buzzwords] and [authors]; it then returns the token and
    one update per section other than [bot], in file order, built from
    that section's options, each with at least one category, one buzzword
    and one author name. *)
Theorem load_config_returns :
  forall (config_read : string -> Result ConfigParser) (interpolate : Interpolation)
         (path : string),
    (forall e, config_read path = Raise e ->
               load_config config_read interpolate path = Raise e)
    /\ (forall config,
          config_read path = Return config -> percent_free config = true ->
          ((exists tok updates,
               load_config config_read interpolate path = Return (tok, updates))
           <-> Config.contains config "bot" = true
               /\ Config.has_option config "bot" "token" = true
               /\ forall s, In s (Config.sections config) -> s <> "bot" ->
                            loadable config s = true)
          /\ (forall tok updates,
                 load_config config_read interpolate path = Return (tok, updates) ->
                 tok = value config "bot" "token"
                 /\ updates = map (update_of config) (update_sections config)
                 /\ length updates = length (update_sections config)
                 /\ Forall (fun u => category u <> [] /\ buzzwords u <> []
                                     /\ update_authors u <> []) updates)).
Proof.
  intros config_read interpolate path; split.
  { intros e R; unfold load_config; rewrite R; reflexivity. }
  intros config R F; unfold load_config; rewrite R.
  assert (Fwd : Config.contains config "bot" = true ->
                Config.has_option config "bot" "token" = true ->
                (forall s, In s (Config.sections config) -> s <> "bot" ->
                           loadable config s = true) ->
                load_config_of interpolate config
                = Return (value config "bot" "token",
                          map (update_of config) (update_sections config))).
  { intros B T L.
    rewrite (load_config_of_plain interpolate config B)
      by (rewrite (percent_free_plain config _ _ F); exact T).
    rewrite load_updates_returns; [reflexivity|].
    intros s Hs Hne; rewrite (percent_free_loadable config s F); auto. }
  assert (Inv : forall tok updates,
             load_config_of interpolate config = Return (tok, updates) ->
             Config.contains config "bot" = true
             /\ Config.has_option config "bot" "token" = true
             /\ forall s, In s (Config.sections config) -> s <> "bot" ->
                          loadable config s = true).
  { intros tok updates H.
    assert (No : forall cond, cond -> (exists e, load_config_of interpolate config
                                                 = Raise e) -> False).
    { intros cond _ [e E]; rewrite E in H; discriminate. }
    destruct (Config.contains config "bot") eqn:B;
      [|destruct (No True I); apply load_config_of_raises; auto].
    destruct (Config.has_option config "bot" "token") eqn:T;
      [|destruct (No True I); apply load_config_of_raises; auto].
    repeat split; intros s Hs Hne.
    destruct (loadable config s) eqn:L; [reflexivity|].
    destruct (No True I); apply load_config_of_raises; right; right; eauto. }
  split; [split|].
  - intros (tok & updates & H); exact (Inv tok updates H).
  - intros (B & T & L); rewrite (Fwd B T L); eauto.
  - intros tok updates H; destruct (Inv tok updates H) as (B & T & L).
    rewrite (Fwd B T L) in H; injection H as <- <-.
    repeat split; [apply length_map|].
    apply Forall_forall; intros u Hu; apply in_map_iff in Hu as (s & <- & _).
    apply update_of_lists.
Qed.

Lemma load_config_returns_witness :
  load_config MoreSamples.config_read Sample.interpolate "/etc/two_updates.ini"
  = Return ("123:abc",
            [ {| category := ["quant-ph"; "math.CO"]; chat_id := "42";
                 buzzwords := ["Quantum"]; update_authors := [""] |};
              {| category := ["cs.DS"]; chat_id := "43";
                 buzzwords := ["walks"]; update_authors := [""] |} ])
  /\ load_config MoreSamples.config_read Sample.interpolate "/etc/broken.ini"
     = Raise (ParsingError "/etc/broken.ini").
Proof.
  split.
  - destruct (proj2 (load_config_returns MoreSamples.config_read Sample.interpolate
                       "/etc/two_updates.ini")
                MoreSamples.two_updates eq_refl eq_refl) as [Iff Shape].
    destruct (proj2 Iff) as (tok & updates & H).
    { repeat split. intros s [<-|[<-|[<-|[]]]] Hne; try reflexivity.
      contradiction Hne; reflexivity. }
    destruct (Shape tok updates H) as (-> & -> & _); exact H.
  - apply (proj1 (load_config_returns MoreSamples.config_read Sample.interpolate
                    "/etc/broken.ini")); reflexivity.
Defined.

(** X4.  For a file that parses and whose values hold no [%], the
    exception of [load_config] is that of the first failing test: a
    missing [bot] section first, a missing [token] next, then the first
    section in file order without all four options, for which the message
    names that section when one of [category], [chat_id], [buzzwords] is
    missing, and the lookup of [authors] fails otherwise. *)
Theorem load_config_first_error :
  forall (config_read : string -> Result ConfigParser) (interpolate : Interpolation)
         (path : string) (config : ConfigParser),
    config_read path = Return config -> percent_free config = true ->
    (Config.contains config "bot" = false ->
     load_config config_read interpolate path
     = Raise (Exception
                "A bot section must be in the configuration file to set the token"))
    /\ (Config.contains config "bot" = true ->
        Config.has_option config "bot" "token" = false ->
        load_config config_read interpolate path
        = Raise (Exception "The bot section must have the bot token."))
    /\ (Config.contains config "bot" = true ->
        Config.has_option config "bot" "token" = true ->
        forall pre s post,
          Config.sections config = (pre ++ s :: post)%list ->
          (forall p, In p pre -> p = "bot" \/ loadable config p = true) ->
          s <> "bot" -> loadable config s = false ->
          load_config config_read interpolate path
          = Raise (if complete config s then KeyError "authors"
                   else Exception
                          ("The section <Section: " ++ s
                           ++ "> is not complete. Missing one of three : category, chat_id or buzzwords."))).
Proof.
  intros config_read interpolate path config R F; unfold load_config; rewrite R.
  repeat split.
  - intros B; unfold load_config_of; rewrite B; reflexivity.
  - intros B T; unfold load_config_of; rewrite B, T; reflexivity.
  - intros B T pre s post E Hpre Hs L.
    rewrite (load_config_of_plain interpolate config B)
      by (rewrite (percent_free_plain config _ _ F); exact T).
    rewrite E, (load_updates_first_bad interpolate config pre s post []);
      [reflexivity | | exact Hs | exact L |].
    + intros p Hp; rewrite (percent_free_loadable config p F); auto.
    + intros C; unfold complete in C.
      rewrite !(percent_free_plain config _ _ F).
      apply andb_true_iff in C as [C C3]; apply andb_true_iff in C as [C1 C2]; auto.
Qed.

Lemma load_config_first_error_witness :
  Config.sections MoreSamples.two_incomplete
  = (["quantum"; "bot"] ++ "second" :: ["third"])%list
  /\ load_config MoreSamples.config_read Sample.interpolate "/etc/two_incomplete.ini"
     = Raise (Exception
                "The section <Section: second> is not complete. Missing one of three : category, chat_id or buzzwords.").
Proof.
  split; [reflexivity|].
  apply (proj2 (proj2 (load_config_first_error MoreSamples.config_read
                         Sample.interpolate "/etc/two_incomplete.ini"
                         MoreSamples.two_incomplete eq_refl eq_refl))
           eq_refl eq_refl ["quantum"; "bot"] "second" ["third"] eq_refl).
  - intros p [<-|[<-|[]]]; [right | left]; reflexivity.
  - discriminate.
  - reflexivity.
Defined.



(** ** Order and growth of the kept articles (lines 85-100 and 113-118) *)

Lemma merge_fresh l : forall acc,
  NoDup l -> (forall x, In x l -> ~ In x acc) ->
  fold_left append_new l acc = (acc ++ l)%list.
Proof.
  induction l as [|e l IH]; intros acc Hnd Hfresh; simpl.
  - rewrite app_nil_r; reflexivity.
  - inversion Hnd as [|? ? He Hl]; subst.
    rewrite (append_new_absent acc e) by (apply Hfresh; left; reflexivity).
    rewrite IH, <- app_assoc; [reflexivity | exact Hl |].
    intros x Hx Hin; apply in_app_iff in Hin as [Hin|[<-|[]]].
    + apply (Hfresh x); [right; exact Hx | exact Hin].
    + contradiction.
Qed.

Lemma merge_extends l : forall acc,
  exists more, fold_left append_new l acc = (acc ++ more)%list.
Proof.
  induction l as [|e l IH]; intros acc; simpl.
  - exists []; rewrite app_nil_r; reflexivity.
  - destruct (IH (append_new acc e)) as [more E]; rewrite E.
    unfold append_new; destruct (in_dec Entry_eq_dec e acc).
    + exists more; reflexivity.
    + exists (e :: more); rewrite <- app_assoc; reflexivity.
Qed.

Lemma nodup_app_disjoint {A} (l m : list A) x :
  NoDup (l ++ m) -> In x l -> In x m -> False.
Proof.
  induction l as [|y l IH]; intros Hnd Hl Hm; [contradiction|].
  inversion Hnd as [|? ? Hy Hrest]; subst.
  destruct Hl as [->|Hl]; [|exact (IH Hrest Hl Hm)].
  apply Hy, in_app_iff; right; exact Hm.
Qed.

Lemma filter_nodup {A} (f : A -> bool) l : NoDup l -> NoDup (filter f l).
Proof.
  induction 1 as [|x l Hx Hl IH]; simpl; [constructor|].
  destruct (f x); [constructor; [|exact IH] | exact IH].
  intros Hin; apply filter_In in Hin; apply Hx, Hin.
Qed.

(** X6.  [get_articles] makes one request, for the feed of the
    category, and returns entries of that feed without repetition; when
    the feed itself repeats no entry, what it returns is the matching
    entries of the feed in the order of the feed. *)
Theorem get_articles_in_feed_order :
  forall (Net : Type) (feedparser_parse : string -> Net -> list Entry * Net)
         (partial_ratio : string -> Target -> Z)
         (cat : string) (words : Buzzwords) (net : Net),
    let feed := fst (feedparser_parse ("http://export.arxiv.org/rss/" ++ cat) net) in
    exists res,
      get_articles feedparser_parse partial_ratio cat words net
      = (Return res, [Parse ("http://export.arxiv.org/rss/" ++ cat)],
         snd (feedparser_parse ("http://export.arxiv.org/rss/" ++ cat) net))
      /\ NoDup res
      /\ incl res feed
      /\ (NoDup feed -> res = filter (hit partial_ratio words) feed).
Proof.
  intros Net feedparser_parse partial_ratio cat words net feed.
  rewrite get_articles_run; fold (rss_url cat); fold feed.
  eexists; split; [reflexivity|].
  split; [apply merge_nodup; constructor|].
  split.
  - intros x Hx; apply merge_in in Hx as [[]|Hx].
    apply filter_In in Hx; apply Hx.
  - intros Hnd; apply (merge_fresh _ []); [apply filter_nodup; exact Hnd|].
    intros x _ [].
Qed.

Lemma get_articles_in_feed_order_witness :
  NoDup (fst (Sample.feedparser_parse (rss_url "quant-ph") 0))
  /\ outcome_of (get_articles Sample.feedparser_parse Sample.partial_ratio "quant-ph"
                   {| for_authors := ["Grace Hopper"]; for_article := ["walks"] |} 0)
     = Return [Sample.walks; Sample.learning].
Proof.
  assert (H : NoDup (fst (Sample.feedparser_parse (rss_url "quant-ph") 0))).
  { repeat constructor; simpl; intuition discriminate. }
  split; [exact H|].
  destruct (get_articles_in_feed_order Sample.Net Sample.feedparser_parse
              Sample.partial_ratio "quant-ph"
              {| for_authors := ["Grace Hopper"]; for_article := ["walks"] |} 0)
    as (res & E & _ & _ & F).
  rewrite E, (F H); reflexivity.
Defined.

Lemma fetched_app Net (feedparser_parse : string -> Net -> list Entry * Net)
      categories categories' : forall net,
  fetched feedparser_parse (categories ++ categories') net
  = (fetched feedparser_parse categories net
     ++ fetched feedparser_parse categories'
          (net_after feedparser_parse categories net))%list.
Proof.
  induction categories as [|cat rest IH]; intros net; [reflexivity|].
  cbn [app]; rewrite !fetched_cons, IH, app_assoc; reflexivity.
Qed.

(** X7.  The categories are handled in order and one after the other:
    the articles kept for a list of categories followed by another are
    those kept for the first list, followed by the articles kept for the
    second list (fetched after the first) that are not among them. *)
Theorem relevant_set_by_category :
  forall (Net : Type) (feedparser_parse : string -> Net -> list Entry * Net)
         (partial_ratio : string -> Target -> Z)
         (categories categories' : list string) (words : Buzzwords) (net : Net),
    RelevantSet feedparser_parse partial_ratio (categories ++ categories') words net
    = fold_left append_new
        (RelevantSet feedparser_parse partial_ratio categories' words
           (net_after feedparser_parse categories net))
        (RelevantSet feedparser_parse partial_ratio categories words net)
    /\ exists more,
        RelevantSet feedparser_parse partial_ratio (categories ++ categories') words net
        = (RelevantSet feedparser_parse partial_ratio categories words net ++ more)%list
        /\ forall x, In x more ->
             In x (RelevantSet feedparser_parse partial_ratio categories' words
                     (net_after feedparser_parse categories net))
             /\ ~ In x (RelevantSet feedparser_parse partial_ratio categories words net).
Proof.
  intros Net feedparser_parse partial_ratio categories categories' words net.
  assert (E : RelevantSet feedparser_parse partial_ratio
                (categories ++ categories') words net
              = fold_left append_new
                  (RelevantSet feedparser_parse partial_ratio categories' words
                     (net_after feedparser_parse categories net))
                  (RelevantSet feedparser_parse partial_ratio categories words net)).
  { rewrite !RelevantSet_eq, fetched_app, filter_app, fold_left_app.
    rewrite merge_merged; reflexivity. }
  split; [exact E|].
  destruct (merge_extends
              (RelevantSet feedparser_parse partial_ratio categories' words
                 (net_after feedparser_parse categories net))
              (RelevantSet feedparser_parse partial_ratio categories words net))
    as [more M].
  exists more; split; [rewrite E; exact M|].
  intros x Hx.
  assert (Hnd : NoDup (RelevantSet feedparser_parse partial_ratio categories words net
                       ++ more)%list).
  { rewrite <- M; apply merge_nodup, RelevantSet_nodup. }
  assert (Hin : In x (fold_left append_new
                        (RelevantSet feedparser_parse partial_ratio categories' words
                           (net_after feedparser_parse categories net))
                        (RelevantSet feedparser_parse partial_ratio categories words net)))
    by (rewrite M; apply in_app_iff; right; exact Hx).
  assert (Hout : ~ In x (RelevantSet feedparser_parse partial_ratio categories words net)).
  { intros Hold; apply (nodup_app_disjoint _ _ x Hnd Hold Hx). }
  split; [|exact Hout].
  apply merge_in in Hin as [Hin|Hin]; [contradiction | exact Hin].
Qed.

(** X8.  When the feeds fetched for the categories repeat no entry, the
    articles kept are the matching entries in the order in which they
    were fetched: category after category, and within a category in the
    order of its feed. *)
Theorem relevant_set_in_fetch_order :
  forall (Net : Type) (feedparser_parse : string -> Net -> list Entry * Net)
         (partial_ratio : string -> Target -> Z)
         (categories : list string) (words : Buzzwords) (net : Net),
    NoDup (fetched feedparser_parse categories net) ->
    RelevantSet feedparser_parse partial_ratio categories words net
    = filter (hit partial_ratio words) (fetched feedparser_parse categories net).
Proof.
  intros Net feedparser_parse partial_ratio categories words net Hnd.
  rewrite RelevantSet_eq.
  apply (merge_fresh _ []); [apply filter_nodup; exact Hnd | intros x _ []].
Qed.

Lemma relevant_set_in_fetch_order_witness :
  fetched Sample.feedparser_parse ["math.CO"; "quant-ph"] 0
  = [Sample.anonymous; Sample.walks; Sample.learning]
  /\ RelevantSet Sample.feedparser_parse Sample.partial_ratio
       ["math.CO"; "quant-ph"]
       {| for_authors := ["Grace Hopper"]; for_article := ["Quantum"] |} 0
     = [Sample.anonymous; Sample.walks; Sample.learning].
Proof.
  split; [reflexivity|].
  rewrite (relevant_set_in_fetch_order Sample.Net Sample.feedparser_parse
             Sample.partial_ratio ["math.CO"; "quant-ph"]
             {| for_authors := ["Grace Hopper"]; for_article := ["Quantum"] |} 0).
  - reflexivity.
  - repeat constructor; simpl; intuition discriminate.
Defined.

Lemma existsb_incl {W} (f : W -> bool) l l' :
  incl l l' -> existsb f l = true -> existsb f l' = true.
Proof.
  intros Hincl H; apply existsb_exists in H as (w & Hw & Hf).
  apply existsb_exists; exists w; auto.
Qed.

Lemma hit_incl partial_ratio words words' e :
  incl (for_article words) (for_article words') ->
  incl (for_authors words) (for_authors words') ->
  hit partial_ratio words e = true -> hit partial_ratio words' e = true.
Proof.
  unfold hit; intros Ha Hb H; apply orb_true_iff in H; apply orb_true_iff.
  destruct H as [H|H]; [left | right]; eapply existsb_incl; eassumption.
Qed.

(** X9.  Only which buzzwords and which author names are listed
    matters, not their order nor their repetition: two dictionaries that
    list the same buzzwords and the same author names keep the same
    articles, in the same order. *)
Theorem buzzwords_as_sets :
  forall (Net : Type) (feedparser_parse : string -> Net -> list Entry * Net)
         (partial_ratio : string -> Target -> Z)
         (categories : list string) (words words' : Buzzwords) (net : Net),
    (forall w, In w (for_article words) <-> In w (for_article words')) ->
    (forall a, In a (for_authors words) <-> In a (for_authors words')) ->
    RelevantSet feedparser_parse partial_ratio categories words net
    = RelevantSet feedparser_parse partial_ratio categories words' net.
Proof.
  intros Net feedparser_parse partial_ratio categories words words' net Hw Ha.
  rewrite !RelevantSet_eq; f_equal; apply filter_ext; intros e.
  destruct (hit partial_ratio words e) eqn:H, (hit partial_ratio words' e) eqn:H';
    try reflexivity.
  - rewrite (hit_incl partial_ratio words words' e) in H'; [discriminate | | | exact H];
      intros x Hx; [apply Hw | apply Ha]; exact Hx.
  - rewrite (hit_incl partial_ratio words' words e) in H; [discriminate | | | exact H'];
      intros x Hx; [apply Hw | apply Ha]; exact Hx.
Qed.

Lemma buzzwords_as_sets_witness :
  RelevantSet Sample.feedparser_parse Sample.partial_ratio ["quant-ph"; "cs.DS"]
    {| for_authors := ["Grace Hopper"]; for_article := ["walks"; "Quantum"; "walks"] |} 0
  = RelevantSet Sample.feedparser_parse Sample.partial_ratio ["quant-ph"; "cs.DS"]
      {| for_authors := ["Grace Hopper"; "Grace Hopper"];
         for_article := ["Quantum"; "walks"] |} 0.
Proof.
  apply (buzzwords_as_sets Sample.Net Sample.feedparser_parse Sample.partial_ratio);
    intros x; simpl; intuition.
Defined.

(** X10.  Listing more buzzwords or more author names never loses an
    article: every article kept for a dictionary is kept for a
    dictionary that lists at least its buzzwords and author names. *)
Theorem more_buzzwords_keep_more :
  forall (Net : Type) (feedparser_parse : string -> Net -> list Entry * Net)
         (partial_ratio : string -> Target -> Z)
         (categories : list string) (words words' : Buzzwords) (net : Net),
    incl (for_article words) (for_article words') ->
    incl (for_authors words) (for_authors words') ->
    incl (RelevantSet feedparser_parse partial_ratio categories words net)
         (RelevantSet feedparser_parse partial_ratio categories words' net).
Proof.
  intros Net feedparser_parse partial_ratio categories words words' net Hw Ha e He.
  apply RelevantSet_in in He as [Hf Hh]; apply RelevantSet_in.
  split; [exact Hf | apply (hit_incl partial_ratio words words' e Hw Ha Hh)].
Qed.

Lemma more_buzzwords_keep_more_witness :
  incl (RelevantSet Sample.feedparser_parse Sample.partial_ratio ["quant-ph"]
          {| for_authors := []; for_article := ["Quantum"] |} 0)
       (RelevantSet Sample.feedparser_parse Sample.partial_ratio ["quant-ph"]
          {| for_authors := ["Grace Hopper"]; for_article := ["Deep"; "Quantum"] |} 0).
Proof.
  apply (more_buzzwords_keep_more Sample.Net Sample.feedparser_parse
           Sample.partial_ratio);
    intros x; simpl; intuition.
Defined.

(** ** The requests and the messages of [send_articles] (lines 113-138) *)

Lemma fetched_urls_app tr tr' :
  fetched_urls (tr ++ tr') = (fetched_urls tr ++ fetched_urls tr')%list.
Proof. apply flat_map_app. Qed.

Lemma send_events_no_request bot chat articles :
  fetched_urls (send_events bot chat articles) = [].
Proof.
  induction articles as [|a rest IH]; [reflexivity|]; cbn [send_events].
  destruct (first_author_name a); [exact IH | reflexivity].
Qed.

(** X11.  [send_articles] requests the feed of every category, in the
    order of the list and as often as a category is listed, before it
    prints or sends anything; it makes no other request. *)
Theorem send_articles_requests_first :
  forall (Net : Type) (feedparser_parse : string -> Net -> list Entry * Net)
         (partial_ratio : string -> Target -> Z) (bot : TeleBot) (chat : string)
         (categories : list string) (words : Buzzwords) (quiet : bool) (net : Net),
    let run := send_articles feedparser_parse partial_ratio bot chat
                 categories words quiet net in
    fetched_urls (trace_of run)
    = map rss_url categories
    /\ snd run = net_after feedparser_parse categories net
    /\ exists rest,
        trace_of run
        = (map Parse (map rss_url categories)
           ++ rest)%list
        /\ fetched_urls rest = []
        /\ sent (trace_of run) = sent rest.
Proof.
  intros Net feedparser_parse partial_ratio bot chat categories words quiet net run.
  subst run; rewrite send_articles_run; unfold trace_of; cbn [fst snd]; cbv zeta.
  set (articles := RelevantSet feedparser_parse partial_ratio categories words net).
  set (rest := Print (PEntries articles)
               :: match articles with
                  | [] => if quiet then [] else [SendMessage bot chat nothing_text]
                  | _ :: _ =>
                      SendMessage bot chat (found_text (length articles))
                      :: send_events bot chat articles
                  end).
  assert (R : fetched_urls rest = []).
  { subst rest; destruct articles as [|a l]; [destruct quiet; reflexivity|].
    apply (send_events_no_request bot chat (a :: l)). }
  split; [rewrite fetched_urls_app, fetched_urls_parse, R; apply app_nil_r|].
  split; [reflexivity|].
  exists rest; split; [reflexivity|].
  split; [exact R | rewrite sent_app, sent_parse; reflexivity].
Qed.

Lemma send_events_addressed bot chat articles :
  Forall (addressed bot chat) (send_events bot chat articles).
Proof.
  induction articles as [|a rest IH]; [constructor|]; cbn [send_events].
  constructor; [exact I|].
  destruct (first_author_name a); constructor; [split; reflexivity | exact IH].
Qed.

Lemma send_events_count bot chat articles :
  length (sent (send_events bot chat articles)) <= length articles.
Proof.
  induction articles as [|a rest IH]; [apply le_n|]; cbn [send_events].
  destruct (first_author_name a); simpl; lia.
Qed.

Lemma sent_addressed bot chat tr :
  Forall (addressed bot chat) tr -> Forall (fun m => fst m = chat) (sent tr).
Proof.
  induction 1 as [|ev tr Hev Htr IH]; [constructor|].
  destruct ev; simpl; try exact IH.
  constructor; [apply Hev | exact IH].
Qed.

(** X12.  Whatever [send_articles] sends, it sends with the bot it was
    given to the chat it was given, and never more than one message more
    than there are kept articles. *)
Theorem send_articles_addresses_the_chat :
  forall (Net : Type) (feedparser_parse : string -> Net -> list Entry * Net)
         (partial_ratio : string -> Target -> Z) (bot : TeleBot) (chat : string)
         (categories : list string) (words : Buzzwords) (quiet : bool) (net : Net),
    let run := send_articles feedparser_parse partial_ratio bot chat
                 categories words quiet net in
    Forall (addressed bot chat) (trace_of run)
    /\ Forall (fun m => fst m = chat) (sent (trace_of run))
    /\ length (sent (trace_of run))
       <= length (RelevantSet feedparser_parse partial_ratio categories words net) + 1.
Proof.
  intros Net feedparser_parse partial_ratio bot chat categories words quiet net run.
  assert (A : Forall (addressed bot chat) (trace_of run)).
  { subst run; rewrite send_articles_run; unfold trace_of; cbn [fst snd]; cbv zeta.
    apply Forall_app; split.
    - apply Forall_forall; intros ev Hev.
      apply in_map_iff in Hev as (url & <- & _); exact I.
    - constructor; [exact I|].
      destruct (RelevantSet feedparser_parse partial_ratio categories words net).
      + destruct quiet; repeat constructor.
      + constructor; [split; reflexivity | apply send_events_addressed]. }
  split; [exact A|].
  split; [apply (sent_addressed bot chat), A|].
  subst run; rewrite send_articles_run; unfold trace_of; cbn [fst snd]; cbv zeta.
  rewrite sent_app, sent_parse; cbn [app].
  destruct (RelevantSet feedparser_parse partial_ratio categories words net)
    as [|a rest].
  - destruct quiet; simpl; lia.
  - change (sent (Print (PEntries (a :: rest))
                  :: SendMessage bot chat (found_text (length (a :: rest)))
                  :: send_events bot chat (a :: rest)))
      with ((chat, found_text (length (a :: rest)))
            :: sent (send_events bot chat (a :: rest))).
    pose proof (send_events_count bot chat (a :: rest)); cbn [length] in *; lia.
Qed.

(** X13.  The flag [quiet] only matters when nothing was kept: with at
    least one kept article [send_articles] does the same with and
    without it. *)
Theorem quiet_only_silences_nothing_found :
  forall (Net : Type) (feedparser_parse : string -> Net -> list Entry * Net)
         (partial_ratio : string -> Target -> Z) (bot : TeleBot) (chat : string)
         (categories : list string) (words : Buzzwords) (net : Net),
    RelevantSet feedparser_parse partial_ratio categories words net <> [] ->
    send_articles feedparser_parse partial_ratio bot chat categories words true net
    = send_articles feedparser_parse partial_ratio bot chat categories words false net.
Proof.
  intros Net feedparser_parse partial_ratio bot chat categories words net Hne.
  rewrite !send_articles_run; cbv zeta.
  destruct (RelevantSet feedparser_parse partial_ratio categories words net);
    [contradiction Hne; reflexivity | reflexivity].
Qed.

Lemma quiet_only_silences_nothing_found_witness :
  RelevantSet Sample.feedparser_parse Sample.partial_ratio
    ["quant-ph"] Sample.quantum 0 <> []
  /\ send_articles Sample.feedparser_parse Sample.partial_ratio Sample.bot "42"
       ["quant-ph"] Sample.quantum true 0
     = send_articles Sample.feedparser_parse Sample.partial_ratio Sample.bot "42"
         ["quant-ph"] Sample.quantum false 0.
Proof.
  assert (H : RelevantSet Sample.feedparser_parse Sample.partial_ratio
                ["quant-ph"] Sample.quantum 0 <> [])
    by (vm_compute; discriminate).
  split; [exact H|].
  apply (quiet_only_silences_nothing_found Sample.Net Sample.feedparser_parse
           Sample.partial_ratio Sample.bot "42" ["quant-ph"] Sample.quantum 0 H).
Defined.

(** ** The loop of [main] over the updates (lines 162-173) *)

Section MainLoop.

Variable Net : Type.
Variable feedparser_parse : string -> Net -> list Entry * Net.
Variable partial_ratio : string -> Target -> Z.
Variable config_read : string -> Result ConfigParser.
Variable interpolate : Interpolation.

Lemma main_loaded args tok updates (net : Net) :
  load_config config_read interpolate (path_of args) = Return (tok, updates) ->
  main feedparser_parse partial_ratio config_read interpolate args net
  = match for_each updates
            (notify_update feedparser_parse partial_ratio
               {| token := tok; parse_mode := "HTML" |} (quiet args)) net with
    | (r, tr, net') =>
        (r, path_notice args :: Print (PConfig tok updates) :: tr, net')
    end.
Proof.
  intros H.
  transitivity
    (bind (@emit Net (path_notice args))
          (fun _ =>
             bind (@print Net (PConfig tok updates))
                  (fun _ =>
                     for_each updates
                       (notify_update feedparser_parse partial_ratio
                          {| token := tok; parse_mode := "HTML" |} (quiet args))))
          net).
  - unfold main; rewrite H; reflexivity.
  - unfold bind, print, emit; cbv beta iota.
    destruct (for_each updates _ net) as [[r tr] net']; reflexivity.
Qed.

Lemma notify_update_run bot quiet_flag update (net : Net) :
  notify_update feedparser_parse partial_ratio bot quiet_flag update net
  = match send_articles feedparser_parse partial_ratio bot (chat_id update)
            (category update)
            {| for_authors := update_authors update;
               for_article := buzzwords update |} quiet_flag net with
    | (r, tr, net') => (r, Print (PBot bot) :: tr, net')
    end.
Proof.
  unfold notify_update, bind, print, emit.
  destruct (send_articles _ _ _ _ _ _ _ net) as [[r tr] net']; reflexivity.
Qed.

Lemma for_each_nothing bot quiet_flag updates : forall net : Net,
  nothing_kept feedparser_parse partial_ratio updates net ->
  exists tr net',
    for_each updates
      (notify_update feedparser_parse partial_ratio bot quiet_flag) net
    = (Return tt, tr, net')
    /\ sent tr = (if quiet_flag then []
                  else map (fun u => (chat_id u, nothing_text)) updates)
    /\ fetched_urls tr = flat_map (fun u => map rss_url (category u)) updates.
Proof.
  induction updates as [|u rest IH]; intros net Hkept.
  - exists [], net; destruct quiet_flag; repeat split.
  - destruct Hkept as [Hu Hrest].
    cbn [for_each]; unfold bind at 1.
    rewrite notify_update_run, send_articles_run; cbv zeta.
    rewrite Hu.
    destruct (IH (net_after feedparser_parse (category u) net) Hrest)
      as (tr & net' & E & S & F).
    rewrite E; eexists; eexists; split; [reflexivity|].
    split.
    + rewrite sent_app; cbn [sent flat_map app].
      rewrite sent_app, sent_parse, S; destruct quiet_flag; reflexivity.
    + rewrite fetched_urls_app; cbn [fetched_urls flat_map app].
      rewrite fetched_urls_app, fetched_urls_parse, F.
      destruct quiet_flag; cbn [fetched_urls flat_map app];
        rewrite ?app_nil_r; reflexivity.
Qed.

End MainLoop.

(** X14.  When the configuration loads and, in this run, no update
    keeps an article, [main] returns normally having requested the feeds
    of every update's categories in order; it has sent nothing under
    [--quiet] and otherwise one nothing-of-interest message per update,
    in the order of the configuration, to the update's chat; on a day
    that is not skipped the process exits with status 0. *)
Theorem main_when_nothing_matches :
  forall (Net : Type) (feedparser_parse : string -> Net -> list Entry * Net)
         (partial_ratio : string -> Target -> Z)
         (config_read : string -> Result ConfigParser) (interpolate : Interpolation)
         (args : Args) (net : Net) (tok : string) (updates : list Update),
    load_config config_read interpolate (path_of args) = Return (tok, updates) ->
    nothing_kept feedparser_parse partial_ratio updates net ->
    exists tr net',
      main feedparser_parse partial_ratio config_read interpolate args net
      = (Return tt, tr, net')
      /\ sent tr = (if quiet args then []
                    else map (fun u => (chat_id u, nothing_text)) updates)
      /\ fetched_urls tr = flat_map (fun u => map rss_url (category u)) updates
      /\ forall today,
          skip_day today = false ->
          program feedparser_parse partial_ratio config_read interpolate
            today args net
          = (0%Z, tr, net').
Proof.
  intros Net feedparser_parse partial_ratio config_read interpolate args net
         tok updates H Hkept.
  destruct (for_each_nothing Net feedparser_parse partial_ratio
              {| token := tok; parse_mode := "HTML" |} (quiet args) updates net Hkept)
    as (tr & net' & E & S & F).
  assert (M : main feedparser_parse partial_ratio config_read interpolate args net
              = (Return tt, path_notice args :: Print (PConfig tok updates) :: tr, net'))
    by (rewrite (main_loaded _ _ _ _ _ args tok updates net H), E; reflexivity).
  exists (path_notice args :: Print (PConfig tok updates) :: tr), net'.
  split; [exact M|].
  split; [exact S|].
  split; [exact F|].
  intros today Hday; unfold program; rewrite Hday, M; reflexivity.
Qed.

Lemma main_when_nothing_matches_witness :
  load_config MoreSamples.config_read Sample.interpolate
    (path_of (Sample.args "/etc/silent_updates.ini"))
  = Return ("123:abc",
            [ {| category := ["quant-ph"; "math.CO"]; chat_id := "42";
                 buzzwords := ["Topology"]; update_authors := ["Nobody"] |};
              {| category := ["cs.DS"]; chat_id := "43";
                 buzzwords := ["Knots"; "Braids"]; update_authors := ["Nobody"] |} ])
  /\ exists tr net',
      program Sample.feedparser_parse Sample.partial_ratio MoreSamples.config_read
        Sample.interpolate Monday (Sample.args "/etc/silent_updates.ini") 0
      = (0%Z, tr, net')
      /\ sent tr = [("42", nothing_text); ("43", nothing_text)]
      /\ fetched_urls tr = [rss_url "quant-ph"; rss_url "math.CO"; rss_url "cs.DS"].
Proof.
  split; [reflexivity|].
  destruct (main_when_nothing_matches Sample.Net Sample.feedparser_parse
              Sample.partial_ratio MoreSamples.config_read Sample.interpolate
              (Sample.args "/etc/silent_updates.ini") 0 _ _ eq_refl)
    as (tr & net' & _ & S & F & P).
  { repeat split; vm_compute; reflexivity. }
  exists tr, net'; split; [apply P; reflexivity|].
  split; [exact S | exact F].
Defined.

(** ** More on the cleaned summary and the count message (lines 130-133) *)

Lemma replace_scan_absent o os new s :
  PyStr.has_char o s = false -> PyStr.replace_scan o os new s = s.
Proof.
  induction s as [|c s IH]; intros H; [reflexivity|].
  apply PyStrFacts.has_char_false_cons in H as [Hne Hs].
  rewrite PyStr.replace_scan_equation_2, (PyStrFacts.prefix_head_neq _ _ _ _ Hne), (IH Hs).
  reflexivity.
Qed.

Lemma spaces_absent s : PyStr.has_char PyStr.LF s = false -> spaces s = s.
Proof.
  induction s as [|c s IH]; intros H; [reflexivity|].
  apply PyStrFacts.has_char_false_cons in H as [Hne Hs].
  cbn [spaces]; rewrite (IH Hs).
  apply not_eq_sym, Ascii.eqb_neq in Hne; rewrite Hne; reflexivity.
Qed.

Lemma spaces_length s : String.length (spaces s) = String.length s.
Proof. induction s as [|c s IH]; simpl; [|rewrite IH]; reflexivity. Qed.

Lemma replace_scan_shrinks o os s :
  String.length (PyStr.replace_scan o os "" s) <= String.length s.
Proof.
  funelim (PyStr.replace_scan o os "" s); [apply le_n|].
  destruct (String.prefix (String o os) (String c s')).
  - pose proof (PyStr.drop_length_le (String.length os) s').
    match goal with
    | IH : String.length (PyStr.replace_scan _ _ _ (PyStr.drop _ _)) <= _ |- _ =>
        simpl; lia
    end.
  - match goal with
    | IH : String.length (PyStr.replace_scan _ _ _ s') <= _ |- _ => simpl; lia
    end.
Qed.

(** X16.  A summary that holds neither ["<"] nor a line feed is sent as
    it is. *)
Theorem plain_summary_unchanged :
  forall s : string,
    PyStr.has_char "<"%char s = false ->
    PyStr.has_char PyStr.LF s = false ->
    processed_summary s = s.
Proof.
  intros s Hlt Hlf; unfold processed_summary.
  rewrite Cleaning.replace_newline, (spaces_absent s Hlf).
  unfold PyStr.replace; rewrite !(replace_scan_absent _ _ _ s Hlt); reflexivity.
Qed.

Lemma plain_summary_unchanged_witness :
  PyStr.has_char "<"%char "A survey of walks." = false
  /\ PyStr.has_char PyStr.LF "A survey of walks." = false
  /\ processed_summary "A survey of walks." = "A survey of walks.".
Proof.
  split; [reflexivity|]; split; [reflexivity|].
  apply (plain_summary_unchanged "A survey of walks."); reflexivity.
Defined.

(** X17.  The cleaning never makes a summary longer: the first pass
    keeps its length and the two other passes only delete. *)
Theorem cleaning_never_lengthens :
  forall s : string,
    String.length (PyStr.replace PyStr.newline " " s) = String.length s
    /\ String.length (processed_summary s) <= String.length s.
Proof.
  intros s; rewrite Cleaning.replace_newline, spaces_length.
  split; [reflexivity|].
  unfold processed_summary; rewrite Cleaning.replace_newline.
  unfold PyStr.replace.
  pose proof (replace_scan_shrinks "<" "/p>"
                (PyStr.replace_scan "<" "p>" "" (spaces s))).
  pose proof (replace_scan_shrinks "<" "p>" (spaces s)).
  pose proof (spaces_length s); lia.
Qed.

Lemma append_cancel_l p a b : p ++ a = p ++ b -> a = b.
Proof.
  induction p as [|c p IH]; intros H; [exact H|].
  injection H as H; exact (IH H).
Qed.

Lemma append_length a b : String.length (a ++ b) = String.length a + String.length b.
Proof. induction a as [|c a IH]; simpl; [|rewrite IH]; reflexivity. Qed.

Lemma append_cancel_r s : forall a b, a ++ s = b ++ s -> a = b.
Proof.
  induction a as [|c a IH]; intros [|d b] H.
  - reflexivity.
  - apply (f_equal String.length) in H; simpl in H; rewrite append_length in H; lia.
  - apply (f_equal String.length) in H; simpl in H; rewrite append_length in H; lia.
  - injection H as -> H; rewrite (IH b H); reflexivity.
Qed.

Lemma of_nat_injective n m : PyStr.of_nat n = PyStr.of_nat m -> n = m.
Proof.
  unfold PyStr.of_nat; intros H.
  apply (f_equal NilEmpty.uint_of_string) in H.
  rewrite !NilEmpty.usu in H; injection H as H.
  apply (f_equal Nat.of_uint) in H.
  rewrite !DecimalNat.Unsigned.of_to in H; exact H.
Qed.

(** X18.  The message that announces the found articles states their
    number: it is the fixed text around the decimal numeral of the
    count, and messages for different counts differ. *)
Theorem found_text_states_the_count :
  forall n m : nat,
    found_text n
    = "You are going to be happy. I found " ++ NilEmpty.string_of_uint (Nat.to_uint n)
      ++ " article(s) of potential interest."
    /\ NilEmpty.uint_of_string (NilEmpty.string_of_uint (Nat.to_uint n))
       = Some (Nat.to_uint n)
    /\ (found_text n = found_text m <-> n = m).
Proof.
  intros n m; split; [reflexivity|].
  split; [apply NilEmpty.usu|].
  split; [|intros ->; reflexivity].
  unfold found_text; intros H.
  apply append_cancel_l, append_cancel_r in H.
  apply of_nat_injective; exact H.
Qed.
